(** * valueinvesting: the derived-metric store, the ticker resolver, the FCF
    acquisition rule and the refresh jobs

    A shallow embedding of [database.py], [stock.py], [ticker_resolver.py]
    and the two refresh jobs of [app.py].

    Conventions of the embedding:
    - a Python [float] is an exact rational ([Qc], canonical fractions, so
      that equality of values is Leibniz equality); [None] is [None] of
      [option];
    - a Python [str] is a [string] of 8-bit characters; case mapping and
      white space are those of the ASCII range;
    - the SQLite table [stock_financials] is a finite map from the primary
      key [ticker] to the row;
    - [datetime.now().isoformat()] is an explicit argument [now] of every
      operation that stamps [last_updated];
    - the remote provider is a function from tickers to what its three
      fetches give, each a value or a raised exception; in the refresh jobs
      the storage backend raises on the writes an oracle [fault] names. *)

From Stdlib Require Import QArith Qcanon Qround Qabs ZArith Lia Lqa Ascii
  DecimalString.
From stdpp Require Import gmap strings list fin_maps sorting.

Local Open Scope Qc_scope.

(** ** Numbers *)

Module Num.

(** [x < y] and [x <= y] on floats, as booleans. *)
Definition ltb (x y : Qc) : bool :=
  match x ?= y with Lt => true | _ => false end.

Definition leb (x y : Qc) : bool :=
  match x ?= y with Gt => false | _ => true end.

(** The builtin [sum]: a left fold that starts from 0. *)
Definition sum (l : list Qc) : Qc := foldl Qcplus 0 l.

(** [len(l)] as a number. *)
Definition len {A} (l : list A) : Qc := Qc_of_Z (Z.of_nat (length l)).

(** The nearest integer, ties going to the even neighbour. *)
Definition round_half_even (q : Q) : Z :=
  let f := Qfloor q in
  match Qcompare (q - inject_Z f) (1 # 2) with
  | Lt => f
  | Gt => (f + 1)%Z
  | Eq => if Z.even f then f else (f + 1)%Z
  end.

Definition thousand : Qc := Qc_of_Z 1000.

(** The builtin [round(x, 3)]: the multiple of 1/1000 nearest to [x], a tie
    going to the even multiple. *)
Definition round3 (x : Qc) : Qc :=
  Qc_of_Z (round_half_even (this (x * thousand)%Qc)) / thousand.

(** The sum as mathematics writes it, for the statements. *)
Definition total (l : list Qc) : Qc := foldr Qcplus 0 l.

(** [m] is the arithmetic mean of the non-empty list [l]. *)
Definition mean_of (l : list Qc) (m : Qc) : Prop :=
  l ≠ [] ∧ m * len l = total l.


End Num.

(** ** Strings *)

Module Str.

Definition code (c : ascii) : N := N_of_ascii c.

(** White space of [str.strip()] in the ASCII range: tab, line feed,
    vertical tab, form feed, carriage return, the four separators
    0x1c..0x1f and the space. *)
Definition is_space (c : ascii) : bool :=
  let n := code c in
  ((9 <=? n) && (n <=? 13) || (28 <=? n) && (n <=? 32))%N.

Definition upper_char (c : ascii) : ascii :=
  let n := code c in
  if ((97 <=? n) && (n <=? 122))%N then ascii_of_N (n - 32) else c.

Definition lower_char (c : ascii) : ascii :=
  let n := code c in
  if ((65 <=? n) && (n <=? 90))%N then ascii_of_N (n + 32) else c.

Fixpoint map (f : ascii → ascii) (s : string) : string :=
  match s with
  | EmptyString => EmptyString
  | String c s' => String (f c) (map f s')
  end.

(** [s.upper()] and [s.lower()]. *)
Definition upper (s : string) : string := map upper_char s.
Definition lower (s : string) : string := map lower_char s.

Fixpoint lstrip (s : string) : string :=
  match s with
  | EmptyString => EmptyString
  | String c s' => if is_space c then lstrip s' else s
  end.

Fixpoint rstrip (s : string) : string :=
  match s with
  | EmptyString => EmptyString
  | String c s' =>
      match rstrip s' with
      | EmptyString => if is_space c then EmptyString else String c EmptyString
      | r => String c r
      end
  end.

(** [s.strip()]. *)
Definition strip (s : string) : string := rstrip (lstrip s).

(** [needle in hay] on strings: [needle] occurs in [hay] as a substring. *)
Fixpoint contains (needle hay : string) : bool :=
  String.prefix needle hay ||
  match hay with
  | EmptyString => false
  | String _ hay' => contains needle hay'
  end.

(** [a] occurs in [b], for the statements. *)
Definition substring (a b : string) : Prop :=
  ∃ x y : string, b = (x +:+ a +:+ y)%string.

End Str.

(** ** Exceptions *)

Inductive Exception : Type :=
  | ValueError (year : Z)     (* "Year must be 2021-2025, got {year}" *)
  | OperationalError          (* raised by the storage backend *)
  | ProviderError.            (* raised by the remote data provider *)

Inductive result (A : Type) : Type :=
  | Ok (a : A)
  | Raise (e : Exception).
Arguments Ok {A} a.
Arguments Raise {A} e.

(** ** database.py *)

Module Database.

Record StockRecord : Type := {
  ticker : string;
  company_name : string;
  enterprise_value : option Qc;
  fcf_2025 : option Qc;
  fcf_2024 : option Qc;
  fcf_2023 : option Qc;
  fcf_2022 : option Qc;
  fcf_2021 : option Qc;
  average_fcf : option Qc;
  fcf_yield : option Qc;
  last_updated : string
}.

(** The dictionary handed to [upsert], as [Stock.get_all_data] builds it:
    the key [ticker] is always there, and [data.get(k)] of the other keys
    is [None] when the key is missing or holds [None]. *)
Record Data : Type := {
  data_ticker : string;
  data_enterprise_value : option Qc;
  data_fcf_2025 : option Qc;
  data_fcf_2024 : option Qc;
  data_fcf_2023 : option Qc;
  data_fcf_2022 : option Qc;
  data_fcf_2021 : option Qc
}.

(** The table [stock_financials]; [ticker] is its primary key. *)
Abbreviation Table := (gmap string StockRecord).

Definition _calculate_average_fcf (fcf_values : list (option Qc)) : option Qc :=
  let valid_values := omap id fcf_values in
  match valid_values with
  | [] => None
  | _ =>
      if existsb (λ v, Num.ltb v 0) valid_values then None
      else Some (Num.sum valid_values / Num.len valid_values)
  end.

Definition _calculate_fcf_yield (average_fcf enterprise_value : option Qc)
  : option Qc :=
  match average_fcf, enterprise_value with
  | Some a, Some ev =>
      if Num.leb ev 0 then None else Some (Num.round3 (a / ev))
  | _, _ => None
  end.

(** INSERT OR REPLACE of the whole row. *)
Definition upsert (now : string) (data : Data) (name : string) (db : Table)
  : Table :=
  let fcf_values :=
    [data_fcf_2025 data; data_fcf_2024 data; data_fcf_2023 data;
     data_fcf_2022 data; data_fcf_2021 data] in
  let average := _calculate_average_fcf fcf_values in
  let ev := data_enterprise_value data in
  let yield := _calculate_fcf_yield average ev in
  <[data_ticker data :=
      {| ticker := data_ticker data;
         company_name := name;
         enterprise_value := ev;
         fcf_2025 := data_fcf_2025 data;
         fcf_2024 := data_fcf_2024 data;
         fcf_2023 := data_fcf_2023 data;
         fcf_2022 := data_fcf_2022 data;
         fcf_2021 := data_fcf_2021 data;
         average_fcf := average;
         fcf_yield := yield;
         last_updated := now |}]> db.

(** SELECT ... WHERE ticker = upper(ticker). *)
Definition get (t : string) (db : Table) : option StockRecord :=
  db !! Str.upper t.

Definition by_ticker (a b : StockRecord) : Prop :=
  String.leb (ticker a) (ticker b) = true.

Global Instance by_ticker_dec : RelDecision by_ticker.
Proof. intros a b. unfold by_ticker. apply _. Defined.

(** SELECT ... ORDER BY ticker. *)
Definition get_all (db : Table) : list StockRecord :=
  merge_sort by_ticker ((map_to_list db).*2).

Definition count (db : Table) : nat := size db.

Definition delete (t : string) (db : Table) : bool * Table :=
  (bool_decide (is_Some (db !! Str.upper t)), base.delete (Str.upper t) db).

Definition clear (db : Table) : Table := ∅.

Definition years : list Z := [2021; 2022; 2023; 2024; 2025]%Z.

(** Assignment [d[k] = v] to a key the dictionary already has: the entry
    keeps its place. *)
Fixpoint dict_set (k : Z) (v : option Qc) (d : list (Z * option Qc))
  : list (Z * option Qc) :=
  match d with
  | [] => [(k, v)]
  | (k', v') :: d' =>
      if (k' =? k)%Z then (k, v) :: d' else (k', v') :: dict_set k v d'
  end.

(** SET fcf_{year} = value, average_fcf = .., fcf_yield = ..,
    last_updated = .. of one row. *)
Definition set_fcf (year : Z) (value average yield : option Qc)
    (now : string) (row : StockRecord) : StockRecord :=
  {| ticker := ticker row;
     company_name := company_name row;
     enterprise_value := enterprise_value row;
     fcf_2025 := if (year =? 2025)%Z then value else fcf_2025 row;
     fcf_2024 := if (year =? 2024)%Z then value else fcf_2024 row;
     fcf_2023 := if (year =? 2023)%Z then value else fcf_2023 row;
     fcf_2022 := if (year =? 2022)%Z then value else fcf_2022 row;
     fcf_2021 := if (year =? 2021)%Z then value else fcf_2021 row;
     average_fcf := average;
     fcf_yield := yield;
     last_updated := now |}.

Definition update_fcf (now : string) (t : string) (year : Z)
    (value : option Qc) (db : Table) : result bool * Table :=
  if negb (bool_decide (year ∈ years)) then (Raise (ValueError year), db)
  else
    match get t db with
    | None => (Ok false, db)
    | Some record =>
        let fcf_values :=
          dict_set year value
            [(2025, fcf_2025 record); (2024, fcf_2024 record);
             (2023, fcf_2023 record); (2022, fcf_2022 record);
             (2021, fcf_2021 record)]%Z in
        let average := _calculate_average_fcf (fcf_values.*2) in
        let yield := _calculate_fcf_yield average (enterprise_value record) in
        (Ok true, alter (set_fcf year value average yield now) (Str.upper t) db)
    end.

(** The row [update_fcf] leaves in place of the row [r] it has read. *)
Definition fcf_written (now : string) (year : Z) (value : option Qc)
    (r : StockRecord) : StockRecord :=
  let values :=
    (dict_set year value
       [(2025, fcf_2025 r); (2024, fcf_2024 r); (2023, fcf_2023 r);
        (2022, fcf_2022 r); (2021, fcf_2021 r)]%Z).*2 in
  let average := _calculate_average_fcf values in
  set_fcf year value average
    (_calculate_fcf_yield average (enterprise_value r)) now r.

(** SET enterprise_value = value, fcf_yield = .., last_updated = .. of one
    row. *)
Definition set_enterprise_value (value yield : option Qc) (now : string)
    (row : StockRecord) : StockRecord :=
  {| ticker := ticker row;
     company_name := company_name row;
     enterprise_value := value;
     fcf_2025 := fcf_2025 row;
     fcf_2024 := fcf_2024 row;
     fcf_2023 := fcf_2023 row;
     fcf_2022 := fcf_2022 row;
     fcf_2021 := fcf_2021 row;
     average_fcf := average_fcf row;
     fcf_yield := yield;
     last_updated := now |}.

Definition update_enterprise_value (now : string) (t : string)
    (value : option Qc) (db : Table) : bool * Table :=
  match get t db with
  | None => (false, db)
  | Some record =>
      let yield := _calculate_fcf_yield (average_fcf record) value in
      (true, alter (set_enterprise_value value yield now) (Str.upper t) db)
  end.

(** [record.fcf_{year}]. *)
Definition fcf_of (year : Z) (r : StockRecord) : option Qc :=
  if (year =? 2025)%Z then fcf_2025 r
  else if (year =? 2024)%Z then fcf_2024 r
  else if (year =? 2023)%Z then fcf_2023 r
  else if (year =? 2022)%Z then fcf_2022 r
  else if (year =? 2021)%Z then fcf_2021 r
  else None.

(** The row with another [last_updated]. *)
Definition stamp (now : string) (r : StockRecord) : StockRecord :=
  {| ticker := ticker r;
     company_name := company_name r;
     enterprise_value := enterprise_value r;
     fcf_2025 := fcf_2025 r;
     fcf_2024 := fcf_2024 r;
     fcf_2023 := fcf_2023 r;
     fcf_2022 := fcf_2022 r;
     fcf_2021 := fcf_2021 r;
     average_fcf := average_fcf r;
     fcf_yield := fcf_yield r;
     last_updated := now |}.

(** The two derived columns of a row are what the derivation gives on the
    row's own inputs. *)
Definition derived_ok (r : StockRecord) : Prop :=
  average_fcf r =
    _calculate_average_fcf
      [fcf_2025 r; fcf_2024 r; fcf_2023 r; fcf_2022 r; fcf_2021 r] ∧
  fcf_yield r = _calculate_fcf_yield (average_fcf r) (enterprise_value r).


End Database.

(** ** stock.py *)

Module Stock.

Record FreeCashFlowData : Type := {
  fcf_2025 : option Qc;
  fcf_2024 : option Qc;
  fcf_2023 : option Qc;
  fcf_2022 : option Qc;
  fcf_2021 : option Qc
}.

(** [FreeCashFlowData()]: every year defaults to [None]. *)
Definition no_data : FreeCashFlowData :=
  {| fcf_2025 := None; fcf_2024 := None; fcf_2023 := None;
     fcf_2022 := None; fcf_2021 := None |}.

Definition calculate_average (self : FreeCashFlowData) : option Qc :=
  let values :=
    [fcf_2025 self; fcf_2024 self; fcf_2023 self; fcf_2022 self;
     fcf_2021 self] in
  let valid_values := omap id values in
  match valid_values with
  | [] => None
  | _ =>
      if existsb (λ v, Num.ltb v 0) valid_values then None
      else Some (Num.sum valid_values / Num.len valid_values)
  end.

(** [setattr(result, f"fcf_{year}", value)] for a target year. *)
Definition setattr (self : FreeCashFlowData) (year : Z) (value : option Qc)
  : FreeCashFlowData :=
  {| fcf_2025 := if (year =? 2025)%Z then value else fcf_2025 self;
     fcf_2024 := if (year =? 2024)%Z then value else fcf_2024 self;
     fcf_2023 := if (year =? 2023)%Z then value else fcf_2023 self;
     fcf_2022 := if (year =? 2022)%Z then value else fcf_2022 self;
     fcf_2021 := if (year =? 2021)%Z then value else fcf_2021 self |}.

(** [getattr(fcf_data, f"fcf_{year}")] for a target year. *)
Definition getattr (self : FreeCashFlowData) (year : Z) : option Qc :=
  if (year =? 2025)%Z then fcf_2025 self
  else if (year =? 2024)%Z then fcf_2024 self
  else if (year =? 2023)%Z then fcf_2023 self
  else if (year =? 2022)%Z then fcf_2022 self
  else if (year =? 2021)%Z then fcf_2021 self
  else None.

Definition TARGET_YEARS : list Z := [2025; 2024; 2023; 2022; 2021]%Z.

(** A cell of a cash-flow statement: [None], a NaN, or a number. *)
Inductive Cell : Type :=
  | PyNone
  | NaN
  | Number (v : Qc).

(** [value is not None and not (isinstance(value, float) and value != value)]:
    the number a valid cell holds. *)
Definition valid (c : Cell) : option Qc :=
  match c with
  | Number v => Some v
  | PyNone | NaN => None
  end.

(** A cash-flow statement as the provider returns it: the row labels, and
    the columns in the provider's order (newest first), each with the year
    of its date and its cell in the row "Free Cash Flow". *)
Record Column : Type := {
  year : Z;
  free_cash_flow : Cell
}.

Record DataFrame : Type := {
  index : list string;
  columns : list Column
}.

Definition empty (df : DataFrame) : bool :=
  bool_decide (index df = []) || bool_decide (columns df = []).

Definition has_fcf_row (df : DataFrame) : bool :=
  bool_decide ("Free Cash Flow"%string ∈ index df).

(** What the provider gives on one ticker; each of the three fetches either
    returns or raises. [info] is the entry "enterpriseValue" of the info
    dictionary ([None] when the key is missing). *)
Record Provider : Type := {
  info : result (option Qc);
  cash_flow : result DataFrame;
  quarterly_cash_flow : result DataFrame
}.

(** The ticker a [Stock] is built with. *)
Definition stock_ticker (t : string) : string := Str.strip (Str.upper t).

Definition get_enterprise_value (self : Provider) : option Qc :=
  match info self with
  | Ok ev => ev
  | Raise _ => None
  end.

Definition _calculate_ttm_fcf (self : Provider) : option Qc :=
  match quarterly_cash_flow self with
  | Raise _ => None
  | Ok q =>
      if empty q then None
      else if negb (has_fcf_row q) then None
      else
        let valid_quarters :=
          omap (λ col, valid (free_cash_flow col)) (take 4 (columns q)) in
        if (length valid_quarters =? 4)%nat then Some (Num.sum valid_quarters)
        else None
  end.

(** The loop over the columns of the annual statement. *)
Definition annual_step (result : FreeCashFlowData) (col : Column)
  : FreeCashFlowData :=
  if bool_decide (year col ∈ TARGET_YEARS) then
    match valid (free_cash_flow col) with
    | Some value => setattr result (year col) (Some value)
    | None => result
    end
  else result.

Definition get_free_cash_flow (self : Provider) : FreeCashFlowData :=
  let result := no_data in
  match cash_flow self with
  | Raise _ => result
  | Ok cf =>
      let result :=
        if negb (empty cf) && has_fcf_row cf
        then foldl annual_step result (columns cf)
        else result in
      match fcf_2025 result with
      | None =>
          match _calculate_ttm_fcf self with
          | Some ttm_fcf => setattr result 2025 (Some ttm_fcf)
          | None => result
          end
      | Some _ => result
      end
  end.

(** For the statements: the figure the annual statement [cf] has for the
    year [y], that is the valid cell of its last column dated [y], when the
    statement is not empty and has the row "Free Cash Flow". *)
Definition figure_for (y : Z) (col : Column) : option Qc :=
  if (year col =? y)%Z then valid (free_cash_flow col) else None.

Definition annual_figure (cf : DataFrame) (y : Z) : option Qc :=
  if negb (empty cf) && has_fcf_row cf then
    last (omap (figure_for y) (columns cf))
  else None.

(** The years set by the loop over the annual statement [cf]. *)
Definition after_annual (cf : DataFrame) : FreeCashFlowData :=
  if negb (empty cf) && has_fcf_row cf
  then foldl annual_step no_data (columns cf)
  else no_data.

(** For the statements: no annual figure for 2025 was obtained. *)
Definition no_annual_2025 (self : Provider) : Prop :=
  ∀ cf, cash_flow self = Ok cf → annual_figure cf 2025 = None.

(** For the statements: the sum of the four newest quarterly figures, when
    the quarterly statement holds a valid figure in each of its four newest
    columns. *)
Definition trailing_twelve_months (self : Provider) : option Qc :=
  match quarterly_cash_flow self with
  | Ok q =>
      if negb (empty q) && has_fcf_row q then
        match (λ col, valid (free_cash_flow col)) <$> take 4 (columns q) with
        | [Some a; Some b; Some c; Some d] => Some (a + b + c + d)
        | _ => None
        end
      else None
  | Raise _ => None
  end.

Definition get_all_data (t : string) (self : Provider) : Database.Data :=
  let fcf := get_free_cash_flow self in
  {| Database.data_ticker := stock_ticker t;
     Database.data_enterprise_value := get_enterprise_value self;
     Database.data_fcf_2025 := fcf_2025 fcf;
     Database.data_fcf_2024 := fcf_2024 fcf;
     Database.data_fcf_2023 := fcf_2023 fcf;
     Database.data_fcf_2022 := fcf_2022 fcf;
     Database.data_fcf_2021 := fcf_2021 fcf |}.

End Stock.

(** ** ticker_resolver.py *)

Module TickerResolver.

Record Company : Type := {
  ticker : string;
  title : string;
  cik_str : option Z
}.

(** One value of the JSON object in [company_tickers.json]; a key may be
    missing. *)
Record Entry : Type := {
  entry_ticker : option string;
  entry_title : option string;
  entry_cik_str : option Z
}.

(** The state of a resolver once loaded: [_companies] and [_ticker_map]. *)
Record Loaded : Type := {
  companies : list Company;
  ticker_map : gmap string Company
}.

(** The [Company] built from an entry: a missing ticker or title is the
    empty string, a missing [cik_str] is [None]. *)
Definition company_of (entry : Entry) : Company :=
  {| ticker := default EmptyString (entry_ticker entry);
     title := default EmptyString (entry_title entry);
     cik_str := entry_cik_str entry |}.

Definition load_step (st : Loaded) (entry : Entry) : Loaded :=
  let company := company_of entry in
  {| companies := companies st ++ [company];
     ticker_map := <[Str.upper (ticker company) := company]> (ticker_map st) |}.

(** [file] is the parsed JSON file, in the order of [data.values()]; [None]
    when the file is missing or is not JSON. *)
Definition _load_data (file : option (list Entry)) : Loaded :=
  let start := {| companies := []; ticker_map := ∅ |} in
  match file with
  | None => start
  | Some data => foldl load_step start data
  end.

(** The loop of step 2: the first company whose title has the input. *)
Fixpoint first_by_title (input_lower : string) (cs : list Company)
  : option Company :=
  match cs with
  | [] => None
  | company :: cs' =>
      if Str.contains input_lower (Str.lower (title company))
      then Some company
      else first_by_title input_lower cs'
  end.

Definition resolve (self : Loaded) (user_input : string) : string :=
  let user_input := Str.strip user_input in
  let input_upper := Str.upper user_input in
  let input_lower := Str.lower user_input in
  match ticker_map self !! input_upper with
  | Some company => ticker company
  | None =>
      match first_by_title input_lower (companies self) with
      | Some company => ticker company
      | None => input_upper
      end
  end.

Definition get_company (self : Loaded) (t : string) : option Company :=
  ticker_map self !! Str.upper t.

(** The ticker of [c] is [k] up to case, [k] being in upper case. *)
Definition same_ticker (k : string) (c : Company) : Prop :=
  Str.upper (ticker c) = k.

Global Instance same_ticker_dec (k : string) (c : Company) :
  Decision (same_ticker k c).
Proof. unfold same_ticker. apply _. Defined.

End TickerResolver.

(** ** app.py: the two refresh jobs *)

Module App.

(** A write the jobs make to the store. *)
Inductive Write : Type :=
  | WriteEV (t : string)
  | WriteFCF (t : string) (year : Z).

Record Batch : Type := {
  db : Database.Table;
  success : nat;
  errors : nat
}.

Section Jobs.

(** The remote provider, by ticker. *)
Variable yf : string → Stock.Provider.
(** The storage backend raises on these writes. *)
Variable fault : Write → bool.
(** The clock at the time of each write. *)
Variable clock : Write → string.

Definition db_update_enterprise_value (t : string) (value : option Qc)
    (d : Database.Table) : result bool * Database.Table :=
  if fault (WriteEV t) then (Raise OperationalError, d)
  else
    let '(found, d') :=
      Database.update_enterprise_value (clock (WriteEV t)) t value d in
    (Ok found, d').

Definition db_update_fcf (t : string) (year : Z) (value : option Qc)
    (d : Database.Table) : result bool * Database.Table :=
  if fault (WriteFCF t year) then (Raise OperationalError, d)
  else Database.update_fcf (clock (WriteFCF t year)) t year value d.

(** The body of the loop of [refresh_enterprise_values], with its
    [try] and [except]. *)
Definition ev_step (b : Batch) (record : Database.StockRecord) : Batch :=
  let stock := yf (Stock.stock_ticker (Database.ticker record)) in
  let new_ev := Stock.get_enterprise_value stock in
  match new_ev with
  | Some _ =>
      match db_update_enterprise_value (Database.ticker record) new_ev (db b)
      with
      | (Ok _, d') =>
          {| db := d'; success := S (success b); errors := errors b |}
      | (Raise _, d') =>
          {| db := d'; success := success b; errors := S (errors b) |}
      end
  | None => b
  end.

Definition refresh_enterprise_values (d : Database.Table) : Batch :=
  let records := Database.get_all d in
  foldl ev_step {| db := d; success := 0; errors := 0 |} records.

(** The inner loop over the years; a raise leaves it at once. *)
Fixpoint update_years (t : string) (fcf_data : Stock.FreeCashFlowData)
    (ys : list Z) (d : Database.Table) : result unit * Database.Table :=
  match ys with
  | [] => (Ok tt, d)
  | year :: ys' =>
      match Stock.getattr fcf_data year with
      | Some fcf_value =>
          match db_update_fcf t year (Some fcf_value) d with
          | (Ok _, d') => update_years t fcf_data ys' d'
          | (Raise e, d') => (Raise e, d')
          end
      | None => update_years t fcf_data ys' d
      end
  end.

Definition fcf_step (b : Batch) (record : Database.StockRecord) : Batch :=
  let stock := yf (Stock.stock_ticker (Database.ticker record)) in
  let fcf_data := Stock.get_free_cash_flow stock in
  match
    update_years (Database.ticker record) fcf_data
      [2025; 2024; 2023; 2022; 2021]%Z (db b)
  with
  | (Ok _, d') =>
      {| db := d'; success := S (success b); errors := errors b |}
  | (Raise _, d') =>
      {| db := d'; success := success b; errors := S (errors b) |}
  end.

Definition refresh_fcf_values (d : Database.Table) : Batch :=
  let records := Database.get_all d in
  foldl fcf_step {| db := d; success := 0; errors := 0 |} records.

(** For the statements. The provider of a record, and what it is asked. *)
Definition provider_of (record : Database.StockRecord) : Stock.Provider :=
  yf (Stock.stock_ticker (Database.ticker record)).

Definition new_ev (record : Database.StockRecord) : option Qc :=
  Stock.get_enterprise_value (provider_of record).

Definition new_fcf (record : Database.StockRecord)
  : Stock.FreeCashFlowData :=
  Stock.get_free_cash_flow (provider_of record).

(** The fetch of the enterprise value raises inside the provider. *)
Definition ev_fetch_raises (record : Database.StockRecord) : bool :=
  match Stock.info (provider_of record) with
  | Raise _ => true
  | Ok _ => false
  end.

(** The fetch of the annual statement raises inside the provider. *)
Definition fcf_fetch_raises (record : Database.StockRecord) : bool :=
  match Stock.cash_flow (provider_of record) with
  | Raise _ => true
  | Ok _ => false
  end.

(** An enterprise value was obtained and its write went through. *)
Definition ev_written (record : Database.StockRecord) : bool :=
  bool_decide (is_Some (new_ev record)) &&
  negb (fault (WriteEV (Database.ticker record))).

(** An enterprise value was obtained and the storage raised on its
    write. *)
Definition ev_failed (record : Database.StockRecord) : bool :=
  bool_decide (is_Some (new_ev record)) &&
  fault (WriteEV (Database.ticker record)).

(** The year [y] was obtained and the storage raised on its write. *)
Definition year_fails (t : string) (fcf_data : Stock.FreeCashFlowData)
    (y : Z) : bool :=
  bool_decide (is_Some (Stock.getattr fcf_data y)) && fault (WriteFCF t y).

(** The storage raised on the write of one of the years obtained. *)
Definition fcf_failed (record : Database.StockRecord) : bool :=
  existsb (year_fails (Database.ticker record) (new_fcf record))
    [2025; 2024; 2023; 2022; 2021]%Z.

(** The row the enterprise-value job leaves in place of [record]. *)
Definition ev_row (record : Database.StockRecord) : Database.StockRecord :=
  if ev_written record then
    Database.set_enterprise_value (new_ev record)
      (Database._calculate_fcf_yield (Database.average_fcf record)
         (new_ev record))
      (clock (WriteEV (Database.ticker record))) record
  else record.

(** The row the loop over the years leaves in place of [row]. *)
Fixpoint row_years (t : string) (fcf_data : Stock.FreeCashFlowData)
    (ys : list Z) (row : Database.StockRecord) : Database.StockRecord :=
  match ys with
  | [] => row
  | year :: ys' =>
      match Stock.getattr fcf_data year with
      | Some fcf_value =>
          if fault (WriteFCF t year) then row
          else
            row_years t fcf_data ys'
              (Database.fcf_written (clock (WriteFCF t year)) year
                 (Some fcf_value) row)
      | None => row_years t fcf_data ys' row
      end
  end.

(** The row the free-cash-flow job leaves in place of [record]. *)
Definition fcf_row (record : Database.StockRecord) : Database.StockRecord :=
  row_years (Database.ticker record) (new_fcf record)
    [2025; 2024; 2023; 2022; 2021]%Z record.

End Jobs.

(** For the statements: every row sits under its own ticker, which is in
    upper case (as [Stock.get_all_data] makes it). *)
Definition canonical (d : Database.Table) : Prop :=
  ∀ k r, d !! k = Some r → Database.ticker r = k ∧ Str.upper k = k.

End App.

(** ** Sample data *)

Module Sample.

Definition t0 : string := "2025-01-01T22:00:00".
Definition t1 : string := "2025-01-02T22:00:00".

Definition apple : Database.Data :=
  {| Database.data_ticker := "AAPL";
     Database.data_enterprise_value := Some (Qc_of_Z 10000);
     Database.data_fcf_2025 := Some (Qc_of_Z 100);
     Database.data_fcf_2024 := Some (Qc_of_Z 200);
     Database.data_fcf_2023 := None;
     Database.data_fcf_2022 := None;
     Database.data_fcf_2021 := None |}.

Definition one_row : Database.Table :=
  Database.upsert t0 apple "Apple Inc." ∅.

Definition column (y : Z) (v : Z) : Stock.Column :=
  {| Stock.year := y; Stock.free_cash_flow := Stock.Number (Qc_of_Z v) |}.

Definition annual : Stock.DataFrame :=
  {| Stock.index := ["Operating Cash Flow"; "Free Cash Flow"]%string;
     Stock.columns :=
       [column 2024 200; column 2023 150;
        {| Stock.year := 2022; Stock.free_cash_flow := Stock.NaN |};
        column 2021 90] |}.

Definition quarters : Stock.DataFrame :=
  {| Stock.index := ["Operating Cash Flow"; "Free Cash Flow"]%string;
     Stock.columns :=
       [column 2025 40; column 2025 30; column 2025 20; column 2024 10;
        column 2024 5] |}.

(** A provider that answers every fetch. *)
Definition provider_up : Stock.Provider :=
  {| Stock.info := Ok (Some (Qc_of_Z 10000));
     Stock.cash_flow := Ok annual;
     Stock.quarterly_cash_flow := Ok quarters |}.

(** A provider whose annual statement cannot be fetched. *)
Definition provider_annual_down : Stock.Provider :=
  {| Stock.info := Ok (Some (Qc_of_Z 10000));
     Stock.cash_flow := Raise ProviderError;
     Stock.quarterly_cash_flow := Ok quarters |}.

(** A provider that raises on every fetch. *)
Definition provider_down : Stock.Provider :=
  {| Stock.info := Raise ProviderError;
     Stock.cash_flow := Raise ProviderError;
     Stock.quarterly_cash_flow := Raise ProviderError |}.

(** Ten stored tickers. *)
Definition tickers : list string :=
  ["T0"; "T1"; "T2"; "T3"; "T4"; "T5"; "T6"; "T7"; "T8"; "T9"]%string.

Definition blank (t : string) : Database.Data :=
  {| Database.data_ticker := t;
     Database.data_enterprise_value := Some (Qc_of_Z 5000);
     Database.data_fcf_2025 := None;
     Database.data_fcf_2024 := Some (Qc_of_Z 100);
     Database.data_fcf_2023 := None;
     Database.data_fcf_2022 := None;
     Database.data_fcf_2021 := None |}.

Definition ten_rows : Database.Table :=
  foldr (λ t d, Database.upsert t0 (blank t) t d) ∅ tickers.

(** The provider raises on the ticker T3 alone. *)
Definition yf_one_down (t : string) : Stock.Provider :=
  if bool_decide (t = "T3"%string) then provider_down else provider_up.

Definition no_fault (w : App.Write) : bool := false.

(** The storage raises on the writes to T5 alone. *)
Definition fault_T5 (w : App.Write) : bool :=
  match w with
  | App.WriteEV t | App.WriteFCF t _ => bool_decide (t = "T5"%string)
  end.

Definition clock (w : App.Write) : string := t1.

Definition entry (t name : string) (cik : Z) : TickerResolver.Entry :=
  {| TickerResolver.entry_ticker := Some t;
     TickerResolver.entry_title := Some name;
     TickerResolver.entry_cik_str := Some cik |}.

Definition directory : option (list TickerResolver.Entry) :=
  Some [entry "MSFT" "MICROSOFT CORP" 789019;
        entry "AAPL" "Apple Inc." 320193;
        entry "APLE" "Apple Hospitality REIT, Inc." 1418121].

End Sample.

(** ** database.py: the ranking query *)

Module Ranking.

(** The sort key of ORDER BY fcf_yield on a row that has a yield. *)
Definition yield_key (r : Database.StockRecord) : Qc :=
  default 0 (Database.fcf_yield r).

(** ORDER BY fcf_yield DESC. *)
Definition by_yield_desc (a b : Database.StockRecord) : Prop :=
  Num.leb (yield_key b) (yield_key a) = true.

Global Instance by_yield_desc_dec : RelDecision by_yield_desc.
Proof. intros a b. unfold by_yield_desc. apply _. Defined.

(** [visit] is the order in which the storage engine comes by the rows of
    the table; it decides the order among rows of equal yield. A negative
    LIMIT is no limit. *)
Definition get_top_by_yield (visit : Database.Table → list Database.StockRecord)
    (limit : Z) (db : Database.Table) : list Database.StockRecord :=
  let rows := filter (λ r, is_Some (Database.fcf_yield r)) (visit db) in
  let sorted := merge_sort by_yield_desc rows in
  if (limit <? 0)%Z then sorted else take (Z.to_nat limit) sorted.

(** For the statements: [visit] comes by every row once. *)
Definition visits_rows (visit : Database.Table → list Database.StockRecord)
  : Prop :=
  ∀ db, visit db ≡ₚ (map_to_list db).*2.

(** For the statements: every row sits under its own ticker. *)
Definition keyed (db : Database.Table) : Prop :=
  ∀ k r, db !! k = Some r → Database.ticker r = k.

(** For the statements: two rows have the same input columns. *)
Definition same_inputs (a b : Database.StockRecord) : Prop :=
  Database.ticker a = Database.ticker b ∧
  Database.company_name a = Database.company_name b ∧
  Database.enterprise_value a = Database.enterprise_value b ∧
  Database.fcf_2025 a = Database.fcf_2025 b ∧
  Database.fcf_2024 a = Database.fcf_2024 b ∧
  Database.fcf_2023 a = Database.fcf_2023 b ∧
  Database.fcf_2022 a = Database.fcf_2022 b ∧
  Database.fcf_2021 a = Database.fcf_2021 b.

End Ranking.

(** ** More sample data *)

Module Examples.

Definition yielding (t : string) (fcf : option Z) : Database.Data :=
  {| Database.data_ticker := t;
     Database.data_enterprise_value := Some (Qc_of_Z 1000);
     Database.data_fcf_2025 := Qc_of_Z <$> fcf;
     Database.data_fcf_2024 := None;
     Database.data_fcf_2023 := None;
     Database.data_fcf_2022 := None;
     Database.data_fcf_2021 := None |}.

(** Five rows with the yields 0.02, none, 0.05, 0.01 and 0.08. *)
Definition five_rows : Database.Table :=
  foldr (λ '(t, fcf) d, Database.upsert Sample.t0 (yielding t fcf) t d) ∅
    [("A", Some 20); ("B", None); ("C", Some 50); ("D", Some 10);
     ("E", Some 80)]%Z%string.

(** A provider that answers every fetch, whatever the ticker. *)
Definition yf_up (t : string) : Stock.Provider := Sample.provider_up.

(** A storage that never raises, and a clock that stands still. *)
Definition no_fault_at (i : nat) : bool := false.
Definition clock_at (i : nat) : string := Sample.t1.

End Examples.

(** ** ticker_resolver.py: search and size *)

Module ResolverQueries.

Import TickerResolver.

(** [query_lower in company.ticker.lower() or
    query_lower in company.title.lower()]. *)
Definition matches (query_lower : string) (company : Company) : bool :=
  Str.contains query_lower (Str.lower (ticker company)) ||
  Str.contains query_lower (Str.lower (title company)).

(** The loop of [search]: [results] grows by each match, and the loop is
    left as soon as it holds [limit] companies or more. *)
Fixpoint search_loop (query_lower : string) (limit : Z)
    (results : list Company) (cs : list Company) : list Company :=
  match cs with
  | [] => results
  | company :: cs' =>
      if matches query_lower company then
        let results := results ++ [company] in
        if (limit <=? Z.of_nat (length results))%Z then results
        else search_loop query_lower limit results cs'
      else search_loop query_lower limit results cs'
  end.

Definition search (self : Loaded) (query : string) (limit : Z)
  : list Company :=
  search_loop (Str.lower query) limit [] (companies self).

(** [len(resolver)]. *)
Definition len (self : Loaded) : nat := length (companies self).

End ResolverQueries.

(** ** ingestion_all.py and lookup.py *)

Module Ingestion.

Record Run : Type := {
  db : Database.Table;
  success_count : nat;
  error_count : nat
}.

(** [companies[:limit]] under [if limit:]: [None] and 0 keep every company,
    a positive limit keeps the first ones, a negative one drops the last
    ones. *)
Definition selected (companies : list TickerResolver.Company)
    (limit : option Z) : list TickerResolver.Company :=
  match limit with
  | None => companies
  | Some n =>
      if (n =? 0)%Z then companies
      else if (0 <? n)%Z then take (Z.to_nat n) companies
      else take (length companies - Z.to_nat (- n)) companies
  end.

Section Runs.

(** The remote provider, by ticker. *)
Variable yf : string → Stock.Provider.
(** The storage backend raises on the upsert of the company processed as
    the [i]-th, counting from 1. *)
Variable fault : nat → bool.
(** The clock at the time of that upsert. *)
Variable clock : nat → string.

(** What is fetched for a ticker. *)
Definition fetch (t : string) : Database.Data :=
  Stock.get_all_data t (yf (Stock.stock_ticker t)).

(** The body of the loop of [run], with its [try] and [except]. *)
Definition run_step (i : nat) (company : TickerResolver.Company) (b : Run)
  : Run :=
  let t := TickerResolver.ticker company in
  let name := TickerResolver.title company in
  let data := fetch t in
  if fault i then
    {| db := db b; success_count := success_count b;
       error_count := S (error_count b) |}
  else
    {| db := Database.upsert (clock i) data name (db b);
       success_count := S (success_count b);
       error_count := error_count b |}.

(** [for i, company in enumerate(companies, i)]. *)
Fixpoint run_loop (i : nat) (companies : list TickerResolver.Company)
    (b : Run) : Run :=
  match companies with
  | [] => b
  | company :: rest => run_loop (S i) rest (run_step i company b)
  end.

Definition run (resolver : TickerResolver.Loaded) (limit : option Z)
    (d : Database.Table) : Run :=
  let companies := selected (TickerResolver.companies resolver) limit in
  run_loop 1 companies {| db := d; success_count := 0; error_count := 0 |}.

(** [ingest_single]: [True] when the upsert went through. *)
Definition ingest_single (t name : string) (d : Database.Table)
  : bool * Database.Table :=
  let data := fetch t in
  if fault 1 then (false, d)
  else (true, Database.upsert (clock 1) data name d).

(** [ingest_single_ticker]: the name is the title of the company the
    directory has for the ticker, and the ticker in upper case otherwise. *)
Definition ingest_single_ticker (resolver : TickerResolver.Loaded)
    (t : string) (d : Database.Table) : Database.Table :=
  let name :=
    match TickerResolver.get_company resolver t with
    | Some company => TickerResolver.title company
    | None => Str.upper t
    end in
  let data := fetch t in
  if fault 1 then d else Database.upsert (clock 1) data name d.

End Runs.

(** lookup.py: the record [lookup] displays for what the user typed, after
    [resolve]; [None] when it prints that the ticker is not found. *)
Definition lookup (resolver : TickerResolver.Loaded) (user_input : string)
    (d : Database.Table) : option Database.StockRecord :=
  let t := TickerResolver.resolve resolver user_input in
  Database.get t d.

End Ingestion.

(** ** stock.py, for the statements *)

Module StockFacts.

(** The provider with other columns in its annual statement. *)
Definition with_annual_columns (self : Stock.Provider)
    (cols : list Stock.Column) : Stock.Provider :=
  {| Stock.info := Stock.info self;
     Stock.cash_flow :=
       match Stock.cash_flow self with
       | Ok cf =>
           Ok {| Stock.index := Stock.index cf; Stock.columns := cols |}
       | Raise e => Raise e
       end;
     Stock.quarterly_cash_flow := Stock.quarterly_cash_flow self |}.

(** A column of the annual statement that counts: dated in a target year
    and holding a valid figure. *)
Definition counts (col : Stock.Column) : bool :=
  bool_decide (Stock.year col ∈ Stock.TARGET_YEARS) &&
  bool_decide (is_Some (Stock.valid (Stock.free_cash_flow col))).

End StockFacts.

(** ** app.py: the page *)

Module Web.

(** [index]: the rows shown and the total the page prints. *)
Definition index (visit : Database.Table → list Database.StockRecord)
    (d : Database.Table) : list Database.StockRecord * nat :=
  let stocks := Ranking.get_top_by_yield visit 30 d in
  let total_stocks := Database.count d in
  (stocks, total_stocks).

End Web.

(** ** stock.py: ValueFormatter *)

Module Formatter.

(** The decimal digits of a natural number. *)
Definition digits (n : N) : string := NilZero.string_of_uint (N.to_uint n).

(** Two digits, with a leading zero. *)
Definition two_digits (n : N) : string :=
  if (n <? 10)%N then String "0" (digits n) else digits n.

(** A comma after every third digit, on the digits from the right. *)
Fixpoint group_rev (cs : list ascii) : list ascii :=
  match cs with
  | a :: b :: c :: ((_ :: _) as rest) =>
      a :: b :: c :: ","%char :: group_rev rest
  | _ => cs
  end.

(** The thousands separators of the format [,]. *)
Definition grouped (s : string) : string :=
  String.string_of_list_ascii (rev (group_rev (rev (String.list_ascii_of_string s)))).

(** The number of hundredths [.2f] prints, for [x] not negative. *)
Definition hundredths (x : Qc) : N :=
  Z.to_N (Num.round_half_even (this (x * Qc_of_Z 100)%Qc)).

(** [f"{x:.2f}"], and [f"{x:,.2f}"] when [comma], for [x] not negative. *)
Definition fixed2 (comma : bool) (x : Qc) : string :=
  let n := hundredths x in
  let whole := digits (n / 100) in
  ((if comma then grouped whole else whole) +:+ "." +:+
   two_digits (n mod 100))%string.

(** The builtin [abs]. *)
Definition abs (x : Qc) : Qc := if Num.ltb x 0 then - x else x.

Definition trillion : Qc := Qc_of_Z 1000000000000.
Definition billion : Qc := Qc_of_Z 1000000000.
Definition million : Qc := Qc_of_Z 1000000.

Definition format_large_number (value : option Qc) (include_sign : bool)
  : string :=
  match value with
  | None => "N/A"
  | Some value =>
      let negative := Num.ltb value 0 in
      let abs_value := abs value in
      let formatted :=
        if Num.leb trillion abs_value then
          ("$" +:+ fixed2 false (abs_value / trillion) +:+ "T")%string
        else if Num.leb billion abs_value then
          ("$" +:+ fixed2 false (abs_value / billion) +:+ "B")%string
        else if Num.leb million abs_value then
          ("$" +:+ fixed2 false (abs_value / million) +:+ "M")%string
        else ("$" +:+ fixed2 true abs_value)%string in
      if negative && include_sign then ("-" +:+ formatted)%string
      else formatted
  end.
End Formatter.

(** * Properties *)

(** ** Numbers *)









Example round3_down : Num.round3 (Q2Qc (1234 # 10000)) = Q2Qc (123 # 1000).
Proof. apply Qc_is_canon. vm_compute. reflexivity. Qed.

Example round3_tie_to_even_below :
  Num.round3 (Q2Qc (625 # 10000)) = Q2Qc (62 # 1000).
Proof. apply Qc_is_canon. vm_compute. reflexivity. Qed.

Example round3_tie_to_even_above :
  Num.round3 (Q2Qc (635 # 10000)) = Q2Qc (64 # 1000).
Proof. apply Qc_is_canon. vm_compute. reflexivity. Qed.

Example round3_tie_negative :
  Num.round3 (Q2Qc (-625 # 10000)) = Q2Qc (-62 # 1000).
Proof. apply Qc_is_canon. vm_compute. reflexivity. Qed.

Lemma ltb_lt (x y : Qc) : Num.ltb x y = true ↔ x < y.
Proof.
  unfold Num.ltb. rewrite Qclt_alt. destruct (x ?= y); split; congruence.
Qed.

Lemma leb_le (x y : Qc) : Num.leb x y = true ↔ x ≤ y.
Proof.
  unfold Num.leb. rewrite Qcle_alt. destruct (x ?= y); split; congruence.
Qed.

Lemma sum_from (a : Qc) (l : list Qc) : foldl Qcplus a l = a + Num.total l.
Proof.
  revert a. induction l as [|x l IH]; intros a; simpl.
  - ring.
  - rewrite IH. ring.
Qed.

Lemma sum_total (l : list Qc) : Num.sum l = Num.total l.
Proof. unfold Num.sum. rewrite sum_from. ring. Qed.

Lemma len_nonzero {A} (l : list A) : l ≠ [] → Num.len l ≠ 0.
Proof.
  intros Hl Hz. apply (f_equal this) in Hz. unfold Num.len in Hz.
  cbn [this Qc_of_Z] in Hz. destruct l; [done|].
  simpl in Hz. discriminate Hz.
Qed.

Lemma mean_of_quotient (l : list Qc) :
  l ≠ [] → Num.mean_of l (Num.sum l / Num.len l).
Proof.
  intros Hl. split; [done|].
  rewrite sum_total, Qcmult_comm. apply Qcmult_div_r. by apply len_nonzero.
Qed.

Lemma any_negative (l : list Qc) :
  existsb (λ v, Num.ltb v 0) l = true ↔ ∃ v, v ∈ l ∧ v < 0.
Proof.
  rewrite existsb_exists. split; intros (v & Hv & Hn); exists v.
  - by rewrite list_elem_of_In, <- ltb_lt.
  - by rewrite <- list_elem_of_In, ltb_lt.
Qed.

Lemma present_elem (values : list (option Qc)) (v : Qc) :
  v ∈ omap id values ↔ Some v ∈ values.
Proof.
  rewrite list_elem_of_omap. split.
  - intros (o & Ho & Heq). simpl in Heq. by subst.
  - intros H. by exists (Some v).
Qed.

Lemma average_general (values : list (option Qc)) :
  let present := omap id values in
  (present = [] → Database._calculate_average_fcf values = None) ∧
  ((∃ v, Some v ∈ values ∧ v < 0) →
   Database._calculate_average_fcf values = None) ∧
  (present ≠ [] → (∀ v, Some v ∈ values → 0 ≤ v) →
   ∃ m, Database._calculate_average_fcf values = Some m ∧
        Num.mean_of present m).
Proof.
  intros present. unfold Database._calculate_average_fcf. fold present.
  split; [|split].
  - intros ->. done.
  - intros (v & Hv & Hneg).
    assert (existsb (λ v, Num.ltb v 0) present = true) as ->.
    { apply any_negative. exists v. split; [|done]. by apply present_elem. }
    by destruct present.
  - intros Hne Hpos.
    assert (existsb (λ v, Num.ltb v 0) present = false) as ->.
    { apply not_true_is_false. rewrite any_negative.
      intros (v & Hv & Hneg). apply present_elem in Hv.
      apply Hpos in Hv. by apply Qcle_not_lt in Hv. }
    destruct present eqn:E; [done|]. rewrite <- E in *.
    eexists. split; [done|]. by apply mean_of_quotient.
Qed.

(** C2. On any five optional values the average is [None] when no value is
    present, [None] when some present value is negative whatever the
    others are, and otherwise the arithmetic mean of the present values;
    the dataclass method of [stock.py] computes the same. *)
Theorem average_fcf_rule (a b c d e : option Qc) :
  let values := [a; b; c; d; e] in
  let present := omap id values in
  Stock.calculate_average
    {| Stock.fcf_2025 := a; Stock.fcf_2024 := b; Stock.fcf_2023 := c;
       Stock.fcf_2022 := d; Stock.fcf_2021 := e |} =
    Database._calculate_average_fcf values ∧
  (present = [] → Database._calculate_average_fcf values = None) ∧
  ((∃ v, Some v ∈ values ∧ v < 0) →
   Database._calculate_average_fcf values = None) ∧
  (present ≠ [] → (∀ v, Some v ∈ values → 0 ≤ v) →
   ∃ m, Database._calculate_average_fcf values = Some m ∧
        Num.mean_of present m).
Proof.
  intros values present. split; [reflexivity|]. apply average_general.
Qed.

Lemma average_fcf_rule_witness :
  ∃ m, Database._calculate_average_fcf
         [Some (Qc_of_Z 100); Some (Qc_of_Z 200); None; None; None] = Some m ∧
       Num.mean_of [Qc_of_Z 100; Qc_of_Z 200] m.
Proof.
  apply (average_fcf_rule (Some (Qc_of_Z 100)) (Some (Qc_of_Z 200))
           None None None).
  - discriminate.
  - intros v Hv. apply list_elem_of_In in Hv. simpl in Hv.
    destruct Hv as [Hv|[Hv|[Hv|[Hv|[Hv|[]]]]]]; inversion Hv; discriminate.
Defined.




Example yield_150_over_10000 :
  Database._calculate_fcf_yield (Some (Qc_of_Z 150)) (Some (Qc_of_Z 10000)) =
    Some (Q2Qc (15 # 1000)).
Proof. reflexivity. Qed.

Example yield_without_enterprise_value :
  Database._calculate_fcf_yield (Some (Qc_of_Z 150)) (Some (Qc_of_Z 0)) = None.
Proof. reflexivity. Qed.

(** ** The store *)

Section Store.

Import Database.

Lemma year_cases (year : Z) :
  year ∈ years →
  year = 2021%Z ∨ year = 2022%Z ∨ year = 2023%Z ∨ year = 2024%Z ∨
  year = 2025%Z.
Proof.
  unfold years. rewrite !elem_of_cons, elem_of_nil. tauto.
Qed.

Lemma update_fcf_bad_year now t year value (db : Table) :
  year ∉ years → update_fcf now t year value db = (Raise (ValueError year), db).
Proof.
  intros Hy. unfold update_fcf. by rewrite bool_decide_eq_false_2.
Qed.

Lemma update_fcf_absent now t year value (db : Table) :
  year ∈ years → get t db = None →
  update_fcf now t year value db = (Ok false, db).
Proof.
  intros Hy Hget. unfold update_fcf.
  rewrite bool_decide_eq_true_2 by done. simpl. by rewrite Hget.
Qed.

Lemma update_fcf_present now t year value (db : Table) r :
  year ∈ years → get t db = Some r →
  update_fcf now t year value db =
    (Ok true, <[Str.upper t := fcf_written now year value r]> db).
Proof.
  intros Hy Hget. unfold update_fcf.
  rewrite bool_decide_eq_true_2 by done. simpl. rewrite Hget.
  f_equal. apply map_eq. intros k.
  destruct (decide (k = Str.upper t)) as [->|Hk].
  - rewrite lookup_alter_eq, lookup_insert_eq. unfold get in Hget.
    by rewrite Hget.
  - by rewrite lookup_alter_ne, lookup_insert_ne.
Qed.

Lemma fcf_written_derived now year value r :
  year ∈ years → derived_ok (fcf_written now year value r).
Proof.
  intros Hy. apply year_cases in Hy.
  destruct Hy as [->|[->|[->|[->| ->]]]]; split; reflexivity.
Qed.

Lemma fcf_written_year now year value r :
  year ∈ years → fcf_of year (fcf_written now year value r) = value.
Proof.
  intros Hy. apply year_cases in Hy.
  by destruct Hy as [->|[->|[->|[->| ->]]]].
Qed.

Lemma fcf_written_other now year value r y :
  y ≠ year → fcf_of y (fcf_written now year value r) = fcf_of y r.
Proof.
  intros Hne. unfold fcf_of, fcf_written, set_fcf.
  cbn [fcf_2025 fcf_2024 fcf_2023 fcf_2022 fcf_2021].
  destruct (Z.eqb_spec y 2025) as [->|?];
    [by destruct (Z.eqb_spec year 2025)|].
  destruct (Z.eqb_spec y 2024) as [->|?];
    [by destruct (Z.eqb_spec year 2024)|].
  destruct (Z.eqb_spec y 2023) as [->|?];
    [by destruct (Z.eqb_spec year 2023)|].
  destruct (Z.eqb_spec y 2022) as [->|?];
    [by destruct (Z.eqb_spec year 2022)|].
  destruct (Z.eqb_spec y 2021) as [->|?];
    [by destruct (Z.eqb_spec year 2021)|].
  done.
Qed.

Lemma update_enterprise_value_present now t value (db : Table) r :
  get t db = Some r →
  update_enterprise_value now t value db =
    (true,
     <[Str.upper t :=
         set_enterprise_value value
           (_calculate_fcf_yield (average_fcf r) value) now r]> db).
Proof.
  intros Hget. unfold update_enterprise_value. rewrite Hget.
  f_equal. apply map_eq. intros k.
  destruct (decide (k = Str.upper t)) as [->|Hk].
  - rewrite lookup_alter_eq, lookup_insert_eq. unfold get in Hget.
    by rewrite Hget.
  - by rewrite lookup_alter_ne, lookup_insert_ne.
Qed.



End Store.

Section StoreContract.

Import Database.



(** C4. [update_fcf] raises the invalid-year error exactly when the year
    is outside 2021..2025; for a year in range it returns [False] exactly
    when the ticker has no row, and leaves the table as it was; otherwise
    it returns [True], the row has the new value in that year, the other
    four years, the enterprise value, the ticker and the name as before,
    both derived columns recomputed from the merged years and the
    enterprise value as it was, and no other row changes. *)
Theorem update_fcf_contract (now t : string) (year : Z) (value : option Qc)
    (db : Table) :
  ((update_fcf now t year value db).1 = Raise (ValueError year) ↔
   year ∉ years) ∧
  (year ∈ years →
   ((update_fcf now t year value db).1 = Ok false ↔ get t db = None) ∧
   (get t db = None → (update_fcf now t year value db).2 = db) ∧
   (∀ r, get t db = Some r →
      ∃ r' db',
        update_fcf now t year value db = (Ok true, db') ∧
        get t db' = Some r' ∧
        (∀ k, k ≠ Str.upper t → db' !! k = db !! k) ∧
        fcf_of year r' = value ∧
        (∀ y, y ≠ year → fcf_of y r' = fcf_of y r) ∧
        enterprise_value r' = enterprise_value r ∧
        ticker r' = ticker r ∧
        company_name r' = company_name r ∧
        average_fcf r' =
          _calculate_average_fcf
            [fcf_2025 r'; fcf_2024 r'; fcf_2023 r'; fcf_2022 r';
             fcf_2021 r'] ∧
        fcf_yield r' =
          _calculate_fcf_yield (average_fcf r') (enterprise_value r) ∧
        last_updated r' = now)).
Proof.
  split.
  - destruct (decide (year ∈ years)) as [Hy|Hy].
    + split; [|done]. destruct (get t db) as [r|] eqn:Hget.
      * by rewrite (update_fcf_present _ _ _ _ _ r).
      * by rewrite update_fcf_absent.
    + by rewrite update_fcf_bad_year.
  - intros Hy. split; [|split].
    + destruct (get t db) as [r|] eqn:Hget.
      * by rewrite (update_fcf_present _ _ _ _ _ r).
      * by rewrite update_fcf_absent.
    + intros Hget. by rewrite update_fcf_absent.
    + intros r Hget. rewrite (update_fcf_present _ _ _ _ _ r) by done.
      eexists _, _. split; [done|]. unfold get.
      rewrite lookup_insert_eq. split; [done|]. split.
      { intros k Hk. by rewrite lookup_insert_ne. }
      split; [by apply fcf_written_year|].
      split; [intros y Hne; by apply fcf_written_other|].
      do 3 (split; [done|]).
      destruct (fcf_written_derived now year value r Hy) as [Ha Hf].
      split; [done|]. split; [exact Hf|done].
Qed.

Lemma update_fcf_contract_witness :
  ∃ r' db',
    update_fcf Sample.t1 "aapl" 2023 (Some (Qc_of_Z 300)) Sample.one_row =
      (Ok true, db') ∧
    get "aapl" db' = Some r' ∧
    fcf_2023 r' = Some (Qc_of_Z 300) ∧
    fcf_2025 r' = Some (Qc_of_Z 100) ∧
    fcf_2024 r' = Some (Qc_of_Z 200) ∧
    average_fcf r' =
      _calculate_average_fcf
        [Some (Qc_of_Z 100); Some (Qc_of_Z 200); Some (Qc_of_Z 300);
         None; None].
Proof.
  destruct (update_fcf_contract Sample.t1 "aapl" 2023 (Some (Qc_of_Z 300))
              Sample.one_row) as [_ H].
  destruct H as (_ & _ & H).
  { unfold years. rewrite !elem_of_cons. tauto. }
  edestruct H as (r' & db' & Hup & Hget & _ & Hy & Hother & _ & _ & _
                  & Havg & _).
  { vm_compute. reflexivity. }
  exists r', db'. split; [exact Hup|]. split; [exact Hget|].
  pose proof (Hother 2025%Z) as H25. pose proof (Hother 2024%Z) as H24.
  pose proof (Hother 2022%Z) as H22. pose proof (Hother 2021%Z) as H21.
  cbn in Hy, H25, H24, H22, H21.
  rewrite Havg, Hy, H25, H24, H22, H21 by discriminate. done.
Defined.

(** C10. With a year outside 2021..2025 [update_fcf] raises the
    invalid-year error whatever the table holds, also when the ticker has
    no row, and the table is as it was. *)
Theorem update_fcf_year_checked_first (now t : string) (year : Z)
    (value : option Qc) (db : Table) :
  year ∉ years →
  update_fcf now t year value db = (Raise (ValueError year), db).
Proof. apply update_fcf_bad_year. Qed.

Lemma update_fcf_year_checked_first_witness :
  get "MSFT" Sample.one_row = None ∧
  update_fcf Sample.t1 "MSFT" 2020 (Some (Qc_of_Z 1)) Sample.one_row =
    (Raise (ValueError 2020), Sample.one_row).
Proof.
  split; [reflexivity|].
  apply (update_fcf_year_checked_first Sample.t1 "MSFT" 2020
           (Some (Qc_of_Z 1)) Sample.one_row).
  intros H. apply year_cases in H. lia.
Defined.

(** C5. On a ticker that has a row [update_enterprise_value] returns
    [True] and leaves the average and the five years (and the ticker and
    the name) as they were: the row gets the new enterprise value, the
    yield recomputed from the average it had and the new enterprise value,
    and the time stamp; no other row changes. On a ticker without a row it
    returns [False] and the table is as it was. *)
Theorem update_enterprise_value_frame (now t : string) (value : option Qc)
    (db : Table) :
  (∀ r, get t db = Some r →
     ∃ r' db',
       update_enterprise_value now t value db = (true, db') ∧
       get t db' = Some r' ∧
       (∀ k, k ≠ Str.upper t → db' !! k = db !! k) ∧
       average_fcf r' = average_fcf r ∧
       (∀ y, fcf_of y r' = fcf_of y r) ∧
       ticker r' = ticker r ∧
       company_name r' = company_name r ∧
       enterprise_value r' = value ∧
       fcf_yield r' = _calculate_fcf_yield (average_fcf r) value ∧
       last_updated r' = now) ∧
  (get t db = None →
   update_enterprise_value now t value db = (false, db)).
Proof.
  split.
  - intros r Hget.
    rewrite (update_enterprise_value_present _ _ _ _ r) by done.
    eexists _, _. split; [done|]. unfold get. rewrite lookup_insert_eq.
    split; [done|]. split; [|done].
    intros k Hk. by rewrite lookup_insert_ne.
  - intros Hget. unfold update_enterprise_value. by rewrite Hget.
Qed.

Lemma update_enterprise_value_frame_witness :
  ∃ r' db',
    update_enterprise_value Sample.t1 "aapl" (Some (Qc_of_Z 5000))
      Sample.one_row = (true, db') ∧
    get "aapl" db' = Some r' ∧
    average_fcf r' =
      _calculate_average_fcf
        [Some (Qc_of_Z 100); Some (Qc_of_Z 200); None; None; None] ∧
    enterprise_value r' = Some (Qc_of_Z 5000) ∧
    last_updated r' = Sample.t1.
Proof.
  destruct (update_enterprise_value_frame Sample.t1 "aapl"
              (Some (Qc_of_Z 5000)) Sample.one_row) as [H _].
  edestruct H as (r' & db' & Hup & Hget & _ & Havg & _ & _ & _ & Hev & _
                  & Hnow).
  { vm_compute. reflexivity. }
  exists r', db'. rewrite Havg. done.
Defined.

(** C9, as the code has it. A second [upsert] of the same inputs leaves
    the table that a single [upsert] made at the time of the second call
    leaves: every column of the row but [last_updated] is as after the
    first call, and [last_updated] is the time of the second call. With
    the same clock reading the second call changes nothing. *)
Theorem upsert_idempotent_but_timestamp (now1 now2 : string) (data : Data)
    (name : string) (db : Table) :
  upsert now2 data name (upsert now1 data name db) =
    upsert now2 data name db ∧
  upsert now2 data name (upsert now1 data name db) !! data_ticker data =
    stamp now2 <$> (upsert now1 data name db !! data_ticker data) ∧
  upsert now1 data name (upsert now1 data name db) =
    upsert now1 data name db.
Proof.
  unfold upsert. rewrite !insert_insert_eq, !lookup_insert_eq. done.
Qed.

(** C9 as stated fails: the second call stamps the row again. *)
Lemma upsert_twice_restamps :
  upsert Sample.t1 Sample.apple "Apple Inc."
    (upsert Sample.t0 Sample.apple "Apple Inc." ∅) ≠
  upsert Sample.t0 Sample.apple "Apple Inc." ∅.
Proof.
  intros H. apply (f_equal (λ m : Table, last_updated <$> m !! "AAPL"%string)) in H.
  vm_compute in H. discriminate H.
Qed.

End StoreContract.

(** ** The resolver *)

Section Resolver.

Import TickerResolver.

Example strip_example : Str.strip "  Apple Inc. " = "Apple Inc."%string.
Proof. reflexivity. Qed.

Example upper_example : Str.upper "brk.b" = "BRK.B"%string.
Proof. reflexivity. Qed.

Example lower_example : Str.lower "Apple Inc." = "apple inc."%string.
Proof. reflexivity. Qed.

Example contains_example :
  Str.contains "ple" "apple inc." = true ∧
  Str.contains "plum" "apple inc." = false.
Proof. split; reflexivity. Qed.

Lemma append_cons (c : ascii) (a y : string) :
  (String c a +:+ y)%string = String c (a +:+ y)%string.
Proof. reflexivity. Qed.

Lemma prefix_spec (a b : string) :
  String.prefix a b = true ↔ ∃ y, b = (a +:+ y)%string.
Proof.
  revert b. induction a as [|c a IH]; intros b; simpl.
  - split; [|by destruct b]. intros _. by exists b.
  - destruct b as [|c' b].
    + split; [done|]. by intros (y & Hy).
    + simpl. destruct (Ascii.ascii_dec c c') as [->|Hne].
      * rewrite IH.
        split; intros (y & Hy); exists y; rewrite append_cons in *;
          congruence.
      * split; [done|]. intros (y & Hy). rewrite append_cons in Hy.
        congruence.
Qed.

Lemma contains_nil (a : string) :
  Str.contains a EmptyString = String.prefix a EmptyString || false.
Proof. reflexivity. Qed.

Lemma contains_cons (a : string) (c : ascii) (b : string) :
  Str.contains a (String c b) =
    String.prefix a (String c b) || Str.contains a b.
Proof. reflexivity. Qed.

Lemma contains_spec (a b : string) :
  Str.contains a b = true ↔ Str.substring a b.
Proof.
  induction b as [|c b IH]; [rewrite contains_nil|rewrite contains_cons].
  - rewrite orb_false_r, prefix_spec. split.
    + intros (y & Hy). by exists EmptyString, y.
    + intros (x & y & Hxy). destruct x; [by exists y|done].
  - rewrite orb_true_iff, prefix_spec, IH. split.
    + intros [(y & Hy)|(x & y & Hxy)].
      * by exists EmptyString, y.
      * exists (String c x), y. by rewrite append_cons, Hxy.
    + intros (x & y & Hxy). destruct x as [|c' x];
        [|rewrite append_cons in Hxy].
      * left. by exists y.
      * right. exists x, y. congruence.
Qed.



Lemma load_companies (st : Loaded) (data : list Entry) :
  companies (foldl load_step st data) = companies st ++ (company_of <$> data).
Proof.
  revert st. induction data as [|e data IH]; intros st; simpl.
  - by rewrite app_nil_r.
  - rewrite IH. simpl. by rewrite <- app_assoc.
Qed.

Lemma load_ticker_map (st : Loaded) (data : list Entry) (k : string) :
  ticker_map (foldl load_step st data) !! k =
    match last (filter (same_ticker k) (company_of <$> data)) with
    | Some c => Some c
    | None => ticker_map st !! k
    end.
Proof.
  revert st. induction data as [|e data IH]; intros st; [done|].
  cbn [foldl]. rewrite IH. rewrite fmap_cons, filter_cons.
  case_decide as Hk.
  - destruct (filter (same_ticker k) (company_of <$> data)) as [|c' l] eqn:E.
    + cbn [last ticker_map load_step]. unfold same_ticker in Hk.
      by rewrite Hk, lookup_insert_eq.
    + rewrite last_cons_cons.
      destruct (last (c' :: l)) eqn:EL; [done|]. by apply last_None in EL.
  - destruct (last _); [done|]. cbn [ticker_map load_step].
    by rewrite lookup_insert_ne.
Qed.

Lemma loaded_companies (file : option (list Entry)) (k : string) :
  ticker_map (_load_data file) !! k =
    last (filter (same_ticker k) (companies (_load_data file))).
Proof.
  destruct file as [data|]; [|done]. unfold _load_data.
  rewrite load_ticker_map, load_companies. cbn [companies ticker_map app].
  rewrite lookup_empty. by destruct (last _).
Qed.



Example resolve_exact_ticker :
  resolve (_load_data Sample.directory) "aple" = "APLE"%string.
Proof. vm_compute. reflexivity. Qed.

Example resolve_fallback :
  resolve (_load_data Sample.directory) "zzzNoMatch" = "ZZZNOMATCH"%string.
Proof. vm_compute. reflexivity. Qed.

Example resolve_no_directory :
  resolve (_load_data None) "Apple" = "APPLE"%string.
Proof. vm_compute. reflexivity. Qed.

End Resolver.

(** ** The acquisition rule *)

Section Acquisition.

Import Stock.

Lemma target_cases (y : Z) :
  y ∈ TARGET_YEARS ↔
  y = 2025%Z ∨ y = 2024%Z ∨ y = 2023%Z ∨ y = 2022%Z ∨ y = 2021%Z.
Proof. unfold TARGET_YEARS. rewrite !elem_of_cons, elem_of_nil. tauto. Qed.

Lemma target_2025 : 2025%Z ∈ TARGET_YEARS.
Proof. apply target_cases. auto. Qed.

Lemma getattr_setattr (d : FreeCashFlowData) (y' y : Z) (v : option Qc) :
  y' ∈ TARGET_YEARS →
  getattr (setattr d y' v) y = if (y' =? y)%Z then v else getattr d y.
Proof.
  intros Hy'. apply target_cases in Hy'. rewrite (Z.eqb_sym y' y).
  unfold getattr, setattr.
  cbn [fcf_2025 fcf_2024 fcf_2023 fcf_2022 fcf_2021].
  destruct Hy' as [->|[->|[->|[->| ->]]]];
    repeat match goal with
           | |- context [(y =? ?k)%Z] =>
               destruct (Z.eqb_spec y k) as [->|?]
           end; done.
Qed.

Lemma annual_loop (acc : FreeCashFlowData) (cols : list Column) (y : Z) :
  y ∈ TARGET_YEARS →
  getattr (foldl annual_step acc cols) y =
    match last (omap (figure_for y) cols) with
    | Some v => Some v
    | None => getattr acc y
    end.
Proof.
  intros Hy. revert acc. induction cols as [|col cols IH]; intros acc;
    [done|].
  cbn [foldl omap list_omap]. rewrite IH. unfold annual_step, figure_for at 2.
  destruct (Z.eqb_spec (year col) y) as [->|Hne].
  - rewrite bool_decide_eq_true_2 by done.
    destruct (valid (free_cash_flow col)) as [v|]; [|done].
    destruct (omap (figure_for y) cols) as [|v' l] eqn:E.
    + cbn [last]. rewrite getattr_setattr by done. by rewrite Z.eqb_refl.
    + rewrite last_cons_cons.
      destruct (last (v' :: l)) eqn:El; [done|]. by apply last_None in El.
  - destruct (last (omap (figure_for y) cols)); [done|].
    case_bool_decide as Hin; [|done].
    destruct (valid (free_cash_flow col)); [|done].
    rewrite getattr_setattr by done.
    by rewrite (proj2 (Z.eqb_neq _ _)).
Qed.

Lemma getattr_no_data (y : Z) : getattr no_data y = None.
Proof. unfold getattr. by repeat case_match. Qed.

Lemma after_annual_figure (cf : DataFrame) (y : Z) :
  y ∈ TARGET_YEARS → getattr (after_annual cf) y = annual_figure cf y.
Proof.
  intros Hy. unfold after_annual, annual_figure.
  destruct (negb (empty cf) && has_fcf_row cf); [|apply getattr_no_data].
  rewrite annual_loop by done. rewrite getattr_no_data.
  by destruct (last _).
Qed.

Lemma ttm_is_trailing_twelve_months (p : Provider) :
  _calculate_ttm_fcf p = trailing_twelve_months p.
Proof.
  unfold _calculate_ttm_fcf, trailing_twelve_months.
  destruct (quarterly_cash_flow p) as [q|e]; [|done].
  destruct (empty q); [done|]. cbn [negb andb].
  destruct (has_fcf_row q); [|done]. cbn [negb].
  destruct (columns q) as [|c1 [|c2 [|c3 [|c4 cols]]]];
    cbn -[Qcplus Num.sum];
    repeat (destruct (valid (free_cash_flow _)); cbn -[Qcplus Num.sum]);
    try done.
  f_equal. unfold Num.sum. cbn [foldl]. rewrite take_0. cbn [omap list_omap foldl]. ring.
Qed.

Lemma get_free_cash_flow_ok (p : Provider) (cf : DataFrame) :
  cash_flow p = Ok cf →
  get_free_cash_flow p =
    match fcf_2025 (after_annual cf) with
    | None =>
        match _calculate_ttm_fcf p with
        | Some ttm_fcf => setattr (after_annual cf) 2025 (Some ttm_fcf)
        | None => after_annual cf
        end
    | Some _ => after_annual cf
    end.
Proof. intros Hcf. unfold get_free_cash_flow. by rewrite Hcf. Qed.

(** C6, as the code has it. When the annual statement is fetched and has
    no valid figure for 2025, the 2025 value is the sum of the four newest
    quarterly figures when each of the four newest quarters has a valid
    one, and stays unset otherwise; when it has a figure for 2025, that
    figure is kept; 2021..2024 are the annual figures alone. When the
    fetch of the annual statement raises, every year stays unset. *)
Theorem ttm_fallback_rule (p : Provider) :
  (∀ cf, cash_flow p = Ok cf →
     (annual_figure cf 2025 = None →
      fcf_2025 (get_free_cash_flow p) = trailing_twelve_months p) ∧
     (∀ v, annual_figure cf 2025 = Some v →
           fcf_2025 (get_free_cash_flow p) = Some v) ∧
     (∀ y, y ∈ [2024; 2023; 2022; 2021]%Z →
           getattr (get_free_cash_flow p) y = annual_figure cf y)) ∧
  (∀ e, cash_flow p = Raise e → get_free_cash_flow p = no_data).
Proof.
  split.
  - intros cf Hcf. rewrite (get_free_cash_flow_ok p cf Hcf).
    rewrite <- ttm_is_trailing_twelve_months.
    pose proof (after_annual_figure cf 2025) as H25.
    change (getattr (after_annual cf) 2025) with (fcf_2025 (after_annual cf))
      in H25.
    rewrite <- H25 by apply target_2025.
    split; [|split].
    + intros Hnone. rewrite Hnone.
      by destruct (_calculate_ttm_fcf p).
    + intros v Hv. by rewrite Hv.
    + intros y Hy.
      assert (y ∈ TARGET_YEARS ∧ y ≠ 2025%Z) as [Hy' Hne].
      { revert Hy. rewrite target_cases, !elem_of_cons, elem_of_nil. lia. }
      rewrite <- (after_annual_figure cf y Hy').
      destruct (fcf_2025 (after_annual cf)); [done|].
      destruct (_calculate_ttm_fcf p); [|done].
      rewrite getattr_setattr by apply target_2025.
      by rewrite (proj2 (Z.eqb_neq _ _)).
  - intros e He. unfold get_free_cash_flow. by rewrite He.
Qed.

Lemma ttm_fallback_rule_witness :
  fcf_2025 (get_free_cash_flow Sample.provider_up) =
    trailing_twelve_months Sample.provider_up ∧
  trailing_twelve_months Sample.provider_up =
    Some (Qc_of_Z 40 + Qc_of_Z 30 + Qc_of_Z 20 + Qc_of_Z 10).
Proof.
  split; [|reflexivity].
  destruct (ttm_fallback_rule Sample.provider_up) as [H _].
  destruct (H Sample.annual) as [H25 _]; [reflexivity|].
  apply H25. reflexivity.
Defined.

(** C6 as stated fails: the annual statement cannot be fetched, the four
    newest quarters are all there, and 2025 stays unset. *)
Lemma ttm_skipped_when_annual_fetch_raises :
  no_annual_2025 Sample.provider_annual_down ∧
  trailing_twelve_months Sample.provider_annual_down =
    Some (Qc_of_Z 40 + Qc_of_Z 30 + Qc_of_Z 20 + Qc_of_Z 10) ∧
  fcf_2025 (get_free_cash_flow Sample.provider_annual_down) = None ∧
  ¬ (∀ p, no_annual_2025 p →
          fcf_2025 (get_free_cash_flow p) = trailing_twelve_months p).
Proof.
  assert (no_annual_2025 Sample.provider_annual_down) as Hno
    by (intros cf Hcf; discriminate Hcf).
  split; [done|]. split; [reflexivity|]. split; [reflexivity|].
  intros H. specialize (H _ Hno). discriminate H.
Qed.

End Acquisition.

(** ** The refresh jobs *)

Section Loops.

Import Database App.

Lemma get_all_elem (d : Table) (r : StockRecord) :
  r ∈ get_all d ↔ ∃ k, d !! k = Some r.
Proof.
  unfold get_all. rewrite merge_sort_Permutation, list_elem_of_fmap.
  split.
  - intros ([k r'] & -> & Hin). exists k. by apply elem_of_map_to_list.
  - intros (k & Hk). exists (k, r). split; [done|].
    by apply elem_of_map_to_list.
Qed.

Lemma get_all_NoDup (d : Table) :
  canonical d → NoDup (ticker <$> get_all d).
Proof.
  intros Hc. unfold get_all. rewrite merge_sort_Permutation.
  assert (ticker <$> (map_to_list d).*2 = (map_to_list d).*1) as ->.
  { rewrite <- list_fmap_compose. apply Forall_fmap_ext_1.
    apply Forall_forall. intros [k r] Hin.
    apply elem_of_map_to_list in Hin. by destruct (Hc k r Hin). }
  apply NoDup_fst_map_to_list.
Qed.

(** A loop whose step rewrites the row of its record and nothing else
    leaves, for each record, the row of that record rewritten. *)
Section Rows.

Variable step : Batch → StockRecord → Batch.
Variable row : StockRecord → StockRecord.
Hypothesis step_db : ∀ b r,
  Str.upper (ticker r) = ticker r → db b !! ticker r = Some r →
  db (step b r) = <[ticker r := row r]> (db b).

Lemma loop_rows (l : list StockRecord) (b : Batch) :
  NoDup (ticker <$> l) →
  (∀ r, r ∈ l → Str.upper (ticker r) = ticker r ∧
                db b !! ticker r = Some r) →
  (∀ r, r ∈ l → db (foldl step b l) !! ticker r = Some (row r)) ∧
  (∀ k, k ∉ ticker <$> l → db (foldl step b l) !! k = db b !! k).
Proof.
  revert b. induction l as [|r0 l IH]; intros b Hnd Hb.
  - split; [|done]. intros r Hr. by apply elem_of_nil in Hr.
  - rewrite fmap_cons in Hnd. apply NoDup_cons in Hnd as [Hr0 Hnd].
    destruct (Hb r0) as [Hup0 Hrow0]; [left|].
    pose proof (step_db b r0 Hup0 Hrow0) as Hstep.
    destruct (IH (step b r0) Hnd) as [IH1 IH2].
    { intros r Hr. destruct (Hb r) as [Hup Hrow]; [by right|].
      split; [done|]. rewrite Hstep, lookup_insert_ne; [done|].
      intros Heq. apply Hr0. rewrite Heq. by apply list_elem_of_fmap_2. }
    cbn [foldl]. split.
    + intros r Hr. apply elem_of_cons in Hr as [->|Hr]; [|by apply IH1].
      rewrite IH2 by done. by rewrite Hstep, lookup_insert_eq.
    + intros k Hk. rewrite fmap_cons, not_elem_of_cons in Hk.
      destruct Hk as [Hne Hk]. rewrite IH2 by done.
      by rewrite Hstep, lookup_insert_ne.
Qed.

Lemma loop_table (d : Table) (s e : nat) :
  canonical d →
  db (foldl step {| db := d; success := s; errors := e |} (get_all d)) =
    row <$> d.
Proof.
  intros Hc.
  destruct (loop_rows (get_all d) {| db := d; success := s; errors := e |})
    as [H1 H2].
  { by apply get_all_NoDup. }
  { intros r Hr. apply get_all_elem in Hr as (k & Hk).
    destruct (Hc k r Hk) as [<- Hup]. done. }
  apply map_eq. intros k. rewrite lookup_fmap.
  destruct (d !! k) as [r|] eqn:Hk.
  - destruct (Hc k r Hk) as [<- _]. rewrite H1; [done|].
    apply get_all_elem. by exists (ticker r).
  - rewrite H2; [done|]. intros Hin.
    apply list_elem_of_fmap in Hin as (r & -> & Hr).
    apply get_all_elem in Hr as (k' & Hk').
    destruct (Hc k' r Hk') as [<- _]. congruence.
Qed.

End Rows.

Section Writes.

Variable fault : Write → bool.
Variable clock : Write → string.

Lemma update_fcf_returns now t year value (d : Table) :
  year ∈ years →
  ∃ found d', update_fcf now t year value d = (Ok found, d').
Proof.
  intros Hy. destruct (get t d) as [r|] eqn:Hget.
  - rewrite (update_fcf_present _ _ _ _ _ r) by done. by eexists _, _.
  - rewrite update_fcf_absent by done. by eexists _, _.
Qed.

Lemma update_years_result t fcf (ys : list Z) (d : Table) :
  Forall (λ y, y ∈ years) ys →
  (update_years fault clock t fcf ys d).1 =
    if existsb (year_fails fault t fcf) ys then Raise OperationalError
    else Ok tt.
Proof.
  intros Hys. revert d. induction Hys as [|y ys Hy Hys IH]; intros d;
    [done|].
  cbn [update_years existsb]. unfold year_fails at 1.
  destruct (Stock.getattr fcf y) as [v|]; [|by rewrite IH].
  unfold db_update_fcf. destruct (fault (WriteFCF t y)); [done|].
  destruct (update_fcf_returns (clock (WriteFCF t y)) t y (Some v) d Hy)
    as (found & d' & ->).
  by rewrite IH.
Qed.

Lemma update_years_db t fcf (ys : list Z) (d : Table) row :
  Forall (λ y, y ∈ years) ys →
  Str.upper t = t → d !! t = Some row →
  (update_years fault clock t fcf ys d).2 =
    <[t := row_years fault clock t fcf ys row]> d.
Proof.
  intros Hys Hup. revert d row.
  induction Hys as [|y ys Hy Hys IH]; intros d row Hrow.
  - cbn. by rewrite insert_id.
  - cbn [update_years row_years].
    destruct (Stock.getattr fcf y) as [v|]; [|by apply IH].
    unfold db_update_fcf.
    destruct (fault (WriteFCF t y)); [cbn; by rewrite insert_id|].
    rewrite (update_fcf_present _ _ _ _ _ row)
      by (done || unfold get; by rewrite Hup).
    rewrite Hup. erewrite IH; [|by rewrite lookup_insert_eq].
    by rewrite insert_insert_eq.
Qed.

Lemma job_years : Forall (λ y, y ∈ years) [2025; 2024; 2023; 2022; 2021]%Z.
Proof.
  repeat constructor; unfold years; rewrite !elem_of_cons; tauto.
Qed.

Lemma row_years_values t fcf (ys : list Z) (row : StockRecord) :
  Forall (λ y, y ∈ years) ys → NoDup ys →
  existsb (year_fails fault t fcf) ys = false →
  ∀ y, fcf_of y (row_years fault clock t fcf ys row) =
       if bool_decide (y ∈ ys)
       then match Stock.getattr fcf y with
            | Some v => Some v
            | None => fcf_of y row
            end
       else fcf_of y row.
Proof.
  intros Hys. revert row.
  induction Hys as [|y0 ys Hy0 Hys IH]; intros row Hnd Hok y; [done|].
  apply NoDup_cons in Hnd as [Hnew Hnd].
  cbn [existsb] in Hok. apply orb_false_iff in Hok as [Hok0 Hok].
  cbn [row_years]. unfold year_fails in Hok0.
  destruct (Stock.getattr fcf y0) as [v|] eqn:Hv.
  - cbn in Hok0. rewrite Hok0, IH by done.
    destruct (decide (y = y0)) as [->|Hne].
    + rewrite bool_decide_eq_false_2, bool_decide_eq_true_2
        by (done || left).
      rewrite Hv. by apply fcf_written_year.
    + rewrite fcf_written_other by done.
      rewrite (bool_decide_ext (y ∈ y0 :: ys) (y ∈ ys)); [done|].
      rewrite elem_of_cons. tauto.
  - rewrite IH by done. destruct (decide (y = y0)) as [->|Hne].
    + rewrite bool_decide_eq_false_2, bool_decide_eq_true_2
        by (done || left).
      by rewrite Hv.
    + rewrite (bool_decide_ext (y ∈ y0 :: ys) (y ∈ ys)); [done|].
      rewrite elem_of_cons. tauto.
Qed.


Lemma row_years_frame t fcf (ys : list Z) (row : StockRecord) :
  enterprise_value (row_years fault clock t fcf ys row) =
    enterprise_value row ∧
  ticker (row_years fault clock t fcf ys row) = ticker row ∧
  company_name (row_years fault clock t fcf ys row) = company_name row.
Proof.
  revert row. induction ys as [|y ys IH]; intros row; [done|].
  cbn [row_years]. destruct (Stock.getattr fcf y); [|apply IH].
  destruct (fault _); [done|].
  destruct (IH (fcf_written (clock (WriteFCF t y)) y (Some q) row))
    as (-> & -> & ->).
  done.
Qed.

Lemma row_years_nothing t (ys : list Z) (row : StockRecord) :
  row_years fault clock t Stock.no_data ys row = row.
Proof.
  induction ys as [|y ys IH]; [done|]. cbn [row_years].
  by rewrite getattr_no_data.
Qed.

End Writes.

Section Jobs.

Variable yf : string → Stock.Provider.
Variable fault : Write → bool.
Variable clock : Write → string.

Lemma ev_step_tally (b : Batch) (r : StockRecord) :
  success (ev_step yf fault clock b r) =
    (success b + if ev_written yf fault r then 1 else 0)%nat ∧
  errors (ev_step yf fault clock b r) =
    (errors b + if ev_failed yf fault r then 1 else 0)%nat.
Proof.
  unfold ev_step, ev_written, ev_failed, new_ev, provider_of,
    db_update_enterprise_value.
  destruct (Stock.get_enterprise_value _) as [v|]; cbn; [|lia].
  destruct (fault (WriteEV (ticker r))); cbn; [lia|].
  destruct (update_enterprise_value _ _ _ _). cbn. lia.
Qed.

Lemma ev_loop_tally (l : list StockRecord) (b : Batch) :
  success (foldl (ev_step yf fault clock) b l) =
    (success b + length (filter (ev_written yf fault) l))%nat ∧
  errors (foldl (ev_step yf fault clock) b l) =
    (errors b + length (filter (ev_failed yf fault) l))%nat.
Proof.
  revert b. induction l as [|r l IH]; intros b; cbn [foldl].
  - rewrite !filter_nil. cbn. lia.
  - destruct (IH (ev_step yf fault clock b r)) as [-> ->].
    destruct (ev_step_tally b r) as [-> ->]. rewrite !filter_cons.
    destruct (ev_written yf fault r), (ev_failed yf fault r);
      repeat case_decide; try done; cbn [length]; lia.
Qed.

Lemma ev_step_db (b : Batch) (r : StockRecord) :
  Str.upper (ticker r) = ticker r → db b !! ticker r = Some r →
  db (ev_step yf fault clock b r) =
    <[ticker r := ev_row yf fault clock r]> (db b).
Proof.
  intros Hup Hrow.
  unfold ev_step, ev_row, ev_written, new_ev, provider_of,
    db_update_enterprise_value.
  destruct (Stock.get_enterprise_value _) as [v|]; cbn;
    [|by rewrite insert_id].
  destruct (fault (WriteEV (ticker r))); cbn; [by rewrite insert_id|].
  rewrite (update_enterprise_value_present _ _ _ _ r)
    by (unfold get; by rewrite Hup).
  cbn. by rewrite Hup.
Qed.

Lemma fcf_step_tally (b : Batch) (r : StockRecord) :
  success (fcf_step yf fault clock b r) =
    (success b + if fcf_failed yf fault r then 0 else 1)%nat ∧
  errors (fcf_step yf fault clock b r) =
    (errors b + if fcf_failed yf fault r then 1 else 0)%nat.
Proof.
  unfold fcf_step.
  pose proof (update_years_result fault clock (ticker r)
                (Stock.get_free_cash_flow
                   (yf (Stock.stock_ticker (ticker r))))
                _ (db b) job_years) as Hres.
  destruct (update_years _ _ _ _ _ _) as [res d'].
  cbn [fst] in Hres. subst res.
  change (existsb _ _) with (fcf_failed yf fault r).
  destruct (fcf_failed yf fault r); cbn; lia.
Qed.

Lemma fcf_loop_tally (l : list StockRecord) (b : Batch) :
  success (foldl (fcf_step yf fault clock) b l) =
    (success b +
     length (filter (λ r, negb (fcf_failed yf fault r)) l))%nat ∧
  errors (foldl (fcf_step yf fault clock) b l) =
    (errors b + length (filter (fcf_failed yf fault) l))%nat.
Proof.
  revert b. induction l as [|r l IH]; intros b; cbn [foldl].
  - rewrite !filter_nil. cbn. lia.
  - destruct (IH (fcf_step yf fault clock b r)) as [-> ->].
    destruct (fcf_step_tally b r) as [-> ->]. rewrite !filter_cons.
    destruct (fcf_failed yf fault r);
      repeat case_decide; try done; cbn [length]; lia.
Qed.

Lemma fcf_step_db (b : Batch) (r : StockRecord) :
  Str.upper (ticker r) = ticker r → db b !! ticker r = Some r →
  db (fcf_step yf fault clock b r) =
    <[ticker r := fcf_row yf fault clock r]> (db b).
Proof.
  intros Hup Hrow. unfold fcf_step, fcf_row, new_fcf, provider_of.
  pose proof (update_years_db fault clock (ticker r)
                (Stock.get_free_cash_flow
                   (yf (Stock.stock_ticker (ticker r))))
                _ (db b) r job_years Hup Hrow) as Hdb.
  destruct (update_years _ _ _ _ _ _) as [[u|e] d']; cbn in *; by subst.
Qed.

End Jobs.

End Loops.

Section RefreshContract.

Import Database App.

Lemma canonical_empty : canonical ∅.
Proof. intros k r Hk. by rewrite lookup_empty in Hk. Qed.

Lemma canonical_upsert now data name (d : Table) :
  Str.upper (data_ticker data) = data_ticker data →
  canonical d → canonical (upsert now data name d).
Proof.
  intros Hup Hd k r. unfold upsert. rewrite lookup_insert.
  case_decide as Hk; [|apply Hd]. intros [= <-]. by subst k.
Qed.

(** C8, as the code has it. A provider that raises is absorbed by
    [get_enterprise_value] and [get_free_cash_flow] and is never counted
    as an error: the errors are the records on which the storage raised.
    The enterprise-value job counts as a success each record whose
    enterprise value was obtained and written, and nothing for a record
    without one; the free-cash-flow job counts as a success each record
    on which the storage did not raise. Every record is processed on its
    own: after a job each row is the row that record alone gives,
    whatever happened on the other records. *)
Theorem refresh_batch_rule (yf : string → Stock.Provider)
    (fault : Write → bool) (clock : Write → string) (d : Table) :
  let records := get_all d in
  let ev := refresh_enterprise_values yf fault clock d in
  let fcf := refresh_fcf_values yf fault clock d in
  (success ev = length (filter (ev_written yf fault) records) ∧
   errors ev = length (filter (ev_failed yf fault) records) ∧
   success fcf =
     length (filter (λ r, negb (fcf_failed yf fault r)) records) ∧
   errors fcf = length (filter (fcf_failed yf fault) records)) ∧
  (∀ r, ev_fetch_raises yf r = true →
        ev_written yf fault r = false ∧ ev_failed yf fault r = false ∧
        ev_row yf fault clock r = r) ∧
  (∀ r, fcf_fetch_raises yf r = true →
        fcf_failed yf fault r = false ∧ fcf_row yf fault clock r = r) ∧
  (canonical d →
   db ev = ev_row yf fault clock <$> d ∧
   db fcf = fcf_row yf fault clock <$> d) ∧
  (∀ r v, new_ev yf r = Some v → fault (WriteEV (ticker r)) = false →
          enterprise_value (ev_row yf fault clock r) = Some v ∧
          average_fcf (ev_row yf fault clock r) = average_fcf r ∧
          ∀ y, fcf_of y (ev_row yf fault clock r) = fcf_of y r) ∧
  (∀ r, fcf_failed yf fault r = false →
        (∀ y v, Stock.getattr (new_fcf yf r) y = Some v →
                fcf_of y (fcf_row yf fault clock r) = Some v) ∧
        (∀ y, Stock.getattr (new_fcf yf r) y = None →
              fcf_of y (fcf_row yf fault clock r) = fcf_of y r) ∧
        enterprise_value (fcf_row yf fault clock r) = enterprise_value r).
Proof.
  intros records ev fcf. split; [|split; [|split; [|split; [|split]]]].
  - destruct (ev_loop_tally yf fault clock records
                {| db := d; success := 0; errors := 0 |}) as [H1 H2].
    destruct (fcf_loop_tally yf fault clock records
                {| db := d; success := 0; errors := 0 |}) as [H3 H4].
    done.
  - intros r Hr. unfold ev_fetch_raises in Hr.
    unfold ev_row, ev_written, ev_failed, new_ev,
      Stock.get_enterprise_value.
    by destruct (Stock.info (provider_of yf r)).
  - intros r Hr. unfold fcf_fetch_raises in Hr.
    assert (new_fcf yf r = Stock.no_data) as Hnone.
    { unfold new_fcf, Stock.get_free_cash_flow.
      by destruct (Stock.cash_flow (provider_of yf r)). }
    unfold fcf_row, fcf_failed. rewrite Hnone.
    split; [done|]. apply row_years_nothing.
  - intros Hc. split.
    + apply (loop_table (ev_step yf fault clock)); [|done].
      apply ev_step_db.
    + apply (loop_table (fcf_step yf fault clock)); [|done].
      apply fcf_step_db.
  - intros r v Hv Hf. unfold ev_row, ev_written. rewrite Hv, Hf.
    rewrite bool_decide_eq_true_2 by done. done.
  - intros r Hok.
    assert (NoDup [2025; 2024; 2023; 2022; 2021]%Z) as Hnd
      by (apply (bool_decide_unpack _); reflexivity).
    pose proof (row_years_values fault clock (ticker r) (new_fcf yf r)
                  _ r job_years Hnd Hok) as Hval.
    fold (fcf_row yf fault clock r) in Hval.
    split; [|split].
    + intros y v Hv. rewrite Hval, Hv.
      case_bool_decide as Hin; [done|]. exfalso. apply Hin.
      revert Hv. unfold Stock.getattr. rewrite !elem_of_cons.
      destruct (Z.eqb_spec y 2025); [tauto|].
      destruct (Z.eqb_spec y 2024); [tauto|].
      destruct (Z.eqb_spec y 2023); [tauto|].
      destruct (Z.eqb_spec y 2022); [tauto|].
      destruct (Z.eqb_spec y 2021); [tauto|]. done.
    + intros y Hv. rewrite Hval, Hv. by case_bool_decide.
    + apply row_years_frame.
Qed.

Lemma refresh_batch_rule_witness :
  db (refresh_enterprise_values Sample.yf_one_down Sample.fault_T5
        Sample.clock Sample.ten_rows) =
    ev_row Sample.yf_one_down Sample.fault_T5 Sample.clock <$>
      Sample.ten_rows ∧
  db (refresh_fcf_values Sample.yf_one_down Sample.fault_T5
        Sample.clock Sample.ten_rows) =
    fcf_row Sample.yf_one_down Sample.fault_T5 Sample.clock <$>
      Sample.ten_rows.
Proof.
  destruct (refresh_batch_rule Sample.yf_one_down Sample.fault_T5
              Sample.clock Sample.ten_rows) as (_ & _ & _ & H & _).
  apply H. unfold Sample.ten_rows. cbn [foldr Sample.tickers].
  repeat (apply canonical_upsert; [reflexivity|]). apply canonical_empty.
Defined.

(** C8 as stated fails: of ten stored tickers the provider raises on one
    and answers on the nine others; the enterprise-value job reports 9
    updated and 0 errors, the free-cash-flow job 10 updated and 0
    errors. *)
Lemma provider_error_is_not_counted :
  let records := get_all Sample.ten_rows in
  let ev :=
    refresh_enterprise_values Sample.yf_one_down Sample.no_fault
      Sample.clock Sample.ten_rows in
  let fcf :=
    refresh_fcf_values Sample.yf_one_down Sample.no_fault
      Sample.clock Sample.ten_rows in
  length records = 10%nat ∧
  length (filter (ev_fetch_raises Sample.yf_one_down) records) = 1%nat ∧
  length (filter (fcf_fetch_raises Sample.yf_one_down) records) = 1%nat ∧
  (success ev, errors ev) = (9, 0)%nat ∧
  (success fcf, errors fcf) = (10, 0)%nat ∧
  (success ev, errors ev) ≠ (9, 1)%nat ∧
  (success fcf, errors fcf) ≠ (9, 1)%nat.
Proof. vm_compute. repeat split; (reflexivity || discriminate). Qed.

Example storage_error_is_counted :
  let ev :=
    refresh_enterprise_values Sample.yf_one_down Sample.fault_T5
      Sample.clock Sample.ten_rows in
  let fcf :=
    refresh_fcf_values Sample.yf_one_down Sample.fault_T5
      Sample.clock Sample.ten_rows in
  (success ev, errors ev) = (8, 1)%nat ∧
  (success fcf, errors fcf) = (9, 1)%nat.
Proof. vm_compute. split; reflexivity. Qed.

End RefreshContract.

(** ** Strings, further *)

Section Strings.

Lemma upper_char_idemp (c : ascii) :
  Str.upper_char (Str.upper_char c) = Str.upper_char c.
Proof. by destruct c as [[] [] [] [] [] [] [] []]. Qed.



Lemma is_space_upper_char (c : ascii) :
  Str.is_space (Str.upper_char c) = Str.is_space c.
Proof. by destruct c as [[] [] [] [] [] [] [] []]. Qed.


Lemma map_map (f g : ascii → ascii) (s : string) :
  Str.map f (Str.map g s) = Str.map (λ c, f (g c)) s.
Proof. induction s as [|c s IH]; [done|]. cbn. by rewrite IH. Qed.

Lemma map_ext (f g : ascii → ascii) (s : string) :
  (∀ c, f c = g c) → Str.map f s = Str.map g s.
Proof. intros H. induction s as [|c s IH]; [done|]. cbn. by rewrite H, IH. Qed.

Lemma upper_idemp (s : string) : Str.upper (Str.upper s) = Str.upper s.
Proof.
  unfold Str.upper. rewrite map_map. apply map_ext, upper_char_idemp.
Qed.



Lemma lstrip_map (f : ascii → ascii) (s : string) :
  (∀ c, Str.is_space (f c) = Str.is_space c) →
  Str.lstrip (Str.map f s) = Str.map f (Str.lstrip s).
Proof.
  intros H. induction s as [|c s IH]; [done|]. cbn. rewrite H.
  by destruct (Str.is_space c).
Qed.

Lemma rstrip_map (f : ascii → ascii) (s : string) :
  (∀ c, Str.is_space (f c) = Str.is_space c) →
  Str.rstrip (Str.map f s) = Str.map f (Str.rstrip s).
Proof.
  intros H. induction s as [|c s IH]; [done|]. cbn. rewrite IH, H.
  destruct (Str.rstrip s); cbn; [by destruct (Str.is_space c)|done].
Qed.

Lemma strip_upper (s : string) :
  Str.strip (Str.upper s) = Str.upper (Str.strip s).
Proof.
  unfold Str.strip, Str.upper.
  by rewrite lstrip_map, rstrip_map by apply is_space_upper_char.
Qed.








End Strings.

(** ** The store, further *)

Section StoreFurther.

Import Database.



(** X2. [get], [update_fcf], [update_enterprise_value] and [delete] take the
    ticker up to case. *)
Theorem store_ticker_case_insensitive (now t t' : string) (year : Z)
    (value : option Qc) (db : Table) :
  Str.upper t = Str.upper t' →
  get t db = get t' db ∧
  update_fcf now t year value db = update_fcf now t' year value db ∧
  update_enterprise_value now t value db =
    update_enterprise_value now t' value db ∧
  delete t db = delete t' db.
Proof.
  intros H. unfold update_fcf, update_enterprise_value, delete, get.
  by rewrite H.
Qed.

Lemma store_ticker_case_insensitive_witness :
  get "aapl" Sample.one_row = get "AaPl" Sample.one_row ∧
  delete "aapl" Sample.one_row = delete "AaPl" Sample.one_row.
Proof.
  destruct (store_ticker_case_insensitive Sample.t1 "aapl" "AaPl" 2025 None
              Sample.one_row) as (H1 & _ & _ & H2); [reflexivity|].
  done.
Defined.

(** X3. a row stored under a ticker that is not in upper case is out of
    reach: no [get] returns it, and no [update_fcf],
    [update_enterprise_value] or [delete] changes it. *)
Theorem row_under_lower_case_unreachable (now k t : string) (year : Z)
    (value : option Qc) (db : Table) :
  Str.upper k ≠ k →
  get t db = get t (base.delete k db) ∧
  (update_fcf now t year value db).2 !! k = db !! k ∧
  (update_enterprise_value now t value db).2 !! k = db !! k ∧
  (delete t db).2 !! k = db !! k.
Proof.
  intros Hk.
  assert (Str.upper t ≠ k) as Hne.
  { intros <-. apply Hk. apply upper_idemp. }
  split; [|split; [|split]].
  - unfold get. by rewrite lookup_delete_ne.
  - unfold update_fcf. case_match; [done|].
    destruct (get t db); [|done]. cbn. by rewrite lookup_alter_ne.
  - unfold update_enterprise_value. destruct (get t db); [|done].
    cbn. by rewrite lookup_alter_ne.
  - cbn. by rewrite lookup_delete_ne.
Qed.

Lemma row_under_lower_case_unreachable_witness :
  let db := upsert Sample.t0 (Sample.blank "aapl") "Apple Inc." ∅ in
  is_Some (db !! "aapl"%string) ∧
  get "aapl" db = None ∧
  (delete "aapl" db).2 !! "aapl"%string = db !! "aapl"%string.
Proof.
  intros db. split; [by eexists|].
  destruct (row_under_lower_case_unreachable Sample.t1 "aapl" "aapl" 2025
              None db) as (H1 & _ & _ & H2); [discriminate|].
  split; [|exact H2]. rewrite H1. reflexivity.
Defined.

End StoreFurther.

Section StoreOrder.

Import Database.

Lemma ascii_compare_trans (a b c : ascii) (o : comparison) :
  Ascii.compare a b = o → Ascii.compare b c = o → Ascii.compare a c = o.
Proof.
  unfold Ascii.compare. intros H1 H2. destruct o.
  - apply N.compare_eq_iff in H1. apply N.compare_eq_iff in H2.
    apply N.compare_eq_iff. congruence.
  - apply N.compare_lt_iff in H1. apply N.compare_lt_iff in H2.
    apply N.compare_lt_iff. by etransitivity.
  - apply N.compare_gt_iff in H1. apply N.compare_gt_iff in H2.
    apply N.compare_gt_iff. by etransitivity.
Qed.

Lemma string_leb_trans (s1 s2 s3 : string) :
  String.leb s1 s2 = true → String.leb s2 s3 = true → String.leb s1 s3 = true.
Proof.
  unfold String.leb. revert s2 s3.
  induction s1 as [|c1 s1 IH]; intros [|c2 s2] [|c3 s3]; cbn; try done.
  specialize (IH s2 s3).
  destruct (Ascii.compare c1 c2) eqn:E12; try done;
    destruct (Ascii.compare c2 c3) eqn:E23; try done.
  - rewrite (ascii_compare_trans _ _ _ Eq E12 E23). exact IH.
  - apply Ascii.compare_eq_iff in E12 as ->. by rewrite E23.
  - apply Ascii.compare_eq_iff in E23 as <-. by rewrite E12.
  - by rewrite (ascii_compare_trans _ _ _ Lt E12 E23).
Qed.

Lemma by_ticker_total : Total by_ticker.
Proof. intros a b. apply String.leb_total. Qed.

Local Instance by_ticker_trans : Transitive by_ticker.
Proof. intros a b c. apply string_leb_trans. Qed.

Lemma get_all_length (db : Table) : length (get_all db) = count db.
Proof.
  unfold get_all, count. rewrite merge_sort_Permutation, length_fmap.
  apply length_map_to_list.
Qed.

Local Existing Instance by_ticker_total.

(** X4. [get_all] lists exactly the stored rows, each once, in ascending
    order of ticker. *)
Theorem get_all_sorted_complete (db : Table) :
  StronglySorted by_ticker (get_all db) ∧
  get_all db ≡ₚ (map_to_list db).*2 ∧
  (∀ r, r ∈ get_all db ↔ ∃ k, db !! k = Some r) ∧
  length (get_all db) = count db.
Proof.
  split; [apply StronglySorted_merge_sort; apply _|].
  split; [apply merge_sort_Permutation|].
  split; [apply get_all_elem|]. apply get_all_length.
Qed.

End StoreOrder.

Section StoreAlgebra.

Import Database.

(** X5. [delete] reports whether the ticker had a row; afterwards the ticker
    has none, the other rows are as before, and a second [delete] finds
    nothing. *)
Theorem delete_contract (t : string) (db : Table) :
  ((delete t db).1 = true ↔ is_Some (get t db)) ∧
  get t (delete t db).2 = None ∧
  (∀ t', Str.upper t' ≠ Str.upper t → get t' (delete t db).2 = get t' db) ∧
  delete t (delete t db).2 = (false, (delete t db).2) ∧
  (get t db = None → (delete t db).2 = db).
Proof.
  unfold delete, get. cbn [fst snd]. split; [apply bool_decide_eq_true|].
  split; [apply lookup_delete_eq|]. split.
  { intros t' Hne. by rewrite lookup_delete_ne. }
  split.
  - rewrite lookup_delete_eq, delete_delete_eq. done.
  - apply delete_id.
Qed.

Lemma delete_contract_witness :
  (delete "aapl" Sample.one_row).2 = ∅ ∧
  (delete "msft" Sample.one_row).2 = Sample.one_row.
Proof.
  split; [reflexivity|].
  destruct (delete_contract "msft" Sample.one_row) as (_ & _ & _ & _ & H).
  apply H. reflexivity.
Defined.

(** X6. how the mutations change [count]: [upsert] adds one when the key is
    new and none otherwise, the two updates never change it, [delete] takes
    one away when it finds the row, [clear] leaves zero. *)
Theorem count_after_mutation (now : string) (db : Table) :
  (∀ data name,
     count (upsert now data name db) =
       match db !! data_ticker data with
       | Some _ => count db
       | None => S (count db)
       end) ∧
  (∀ t year value, count (update_fcf now t year value db).2 = count db) ∧
  (∀ t value, count (update_enterprise_value now t value db).2 = count db) ∧
  (∀ t, count (delete t db).2 =
        if (delete t db).1 then pred (count db) else count db) ∧
  count (clear db) = 0%nat.
Proof.
  unfold count. split; [|split; [|split; [|split]]].
  - intros data name. unfold upsert. rewrite map_size_insert.
    by destruct (db !! data_ticker data).
  - intros t year value.
    destruct (decide (year ∈ years)) as [Hy|Hy];
      [|by rewrite update_fcf_bad_year].
    destruct (get t db) as [r|] eqn:Hget;
      [|by rewrite update_fcf_absent].
    rewrite (update_fcf_present _ _ _ _ _ r) by done. cbn [snd].
    rewrite map_size_insert. unfold get in Hget. by rewrite Hget.
  - intros t value. destruct (get t db) as [r|] eqn:Hget.
    + rewrite (update_enterprise_value_present _ _ _ _ r) by done. cbn [snd].
      rewrite map_size_insert. unfold get in Hget. by rewrite Hget.
    + unfold update_enterprise_value. by rewrite Hget.
  - intros t. unfold delete. cbn [fst snd]. rewrite map_size_delete.
    destruct (db !! Str.upper t) eqn:E.
    + by rewrite bool_decide_eq_true_2.
    + rewrite bool_decide_eq_false_2; [done|]. by intros [? ?].
  - apply map_size_empty.
Qed.

(** X7. two [update_fcf] of the same year: the later one wins, the row is
    the one the later call alone would leave. *)
Theorem update_fcf_last_write_wins (now1 now2 t : string) (year : Z)
    (v1 v2 : option Qc) (db : Table) :
  (update_fcf now2 t year v2 (update_fcf now1 t year v1 db).2).2 =
    (update_fcf now2 t year v2 db).2.
Proof.
  destruct (decide (year ∈ years)) as [Hy|Hy];
    [|by rewrite !update_fcf_bad_year by done].
  destruct (get t db) as [r|] eqn:Hget;
    [|by rewrite !update_fcf_absent
        by (done || by rewrite update_fcf_absent)].
  rewrite (update_fcf_present now1 _ _ _ _ r) by done. cbn [snd].
  rewrite (update_fcf_present now2 _ _ _ _ (fcf_written now1 year v1 r))
    by (done || unfold get; by rewrite lookup_insert_eq).
  rewrite (update_fcf_present now2 _ _ _ _ r) by done. cbn [snd].
  rewrite insert_insert_eq. f_equal.
  apply year_cases in Hy. by destruct Hy as [->|[->|[->|[->| ->]]]].
Qed.

(** X8. [update_fcf] of one year and of another, in either order, leave the
    same table when the later call is made at the same time. *)
Theorem update_fcf_years_commute (now1 now1' now2 t : string) (y1 y2 : Z)
    (v1 v2 : option Qc) (db : Table) :
  y1 ∈ years → y2 ∈ years → y1 ≠ y2 →
  (update_fcf now2 t y2 v2 (update_fcf now1 t y1 v1 db).2).2 =
    (update_fcf now2 t y1 v1 (update_fcf now1' t y2 v2 db).2).2.
Proof.
  intros Hy1 Hy2 Hne.
  destruct (get t db) as [r|] eqn:Hget;
    [|by rewrite !update_fcf_absent by (done || by rewrite update_fcf_absent)].
  rewrite (update_fcf_present now1 _ y1 _ _ r) by done.
  rewrite (update_fcf_present now1' _ y2 _ _ r) by done. cbn [snd].
  rewrite (update_fcf_present now2 _ y2 _ _ (fcf_written now1 y1 v1 r))
    by (done || unfold get; by rewrite lookup_insert_eq).
  rewrite (update_fcf_present now2 _ y1 _ _ (fcf_written now1' y2 v2 r))
    by (done || unfold get; by rewrite lookup_insert_eq).
  cbn [snd]. rewrite !insert_insert_eq. f_equal.
  apply year_cases in Hy1, Hy2.
  destruct Hy1 as [->|[->|[->|[->| ->]]]];
    destruct Hy2 as [->|[->|[->|[->| ->]]]]; done.
Qed.

Lemma update_fcf_years_commute_witness :
  (update_fcf Sample.t1 "AAPL" 2022 (Some (Qc_of_Z 7))
     (update_fcf Sample.t0 "AAPL" 2023 None Sample.one_row).2).2 =
  (update_fcf Sample.t1 "AAPL" 2023 None
     (update_fcf Sample.t0 "AAPL" 2022 (Some (Qc_of_Z 7)) Sample.one_row).2).2.
Proof.
  apply update_fcf_years_commute;
    [unfold years; rewrite !elem_of_cons; tauto ..|discriminate].
Defined.



(** X10. every mutation keeps each row under its own ticker, so that [get]
    of a ticker returns a record of that ticker in upper case. *)
Theorem keyed_preserved (now : string) (db : Table) :
  Ranking.keyed db →
  (∀ data name, Ranking.keyed (upsert now data name db)) ∧
  (∀ t year value, Ranking.keyed (update_fcf now t year value db).2) ∧
  (∀ t value, Ranking.keyed (update_enterprise_value now t value db).2) ∧
  (∀ t, Ranking.keyed (delete t db).2) ∧
  Ranking.keyed (clear db) ∧
  (∀ t r, get t db = Some r → ticker r = Str.upper t).
Proof.
  intros Hk. split; [|split; [|split; [|split; [|split]]]].
  - intros data name k r. unfold upsert. rewrite lookup_insert.
    case_decide as E; [|apply Hk]. intros [= <-]. done.
  - intros t year value k r. unfold update_fcf. case_match; [apply Hk|].
    destruct (get t db); [|apply Hk]. cbn [snd].
    rewrite lookup_alter_Some. intros [(_ & r' & Hr' & ->)|[_ Hr]];
      [|by apply Hk]. cbn. by apply Hk.
  - intros t value k r. unfold update_enterprise_value.
    destruct (get t db); [|apply Hk]. cbn [snd].
    rewrite lookup_alter_Some. intros [(_ & r' & Hr' & ->)|[_ Hr]];
      [|by apply Hk]. cbn. by apply Hk.
  - intros t k r. cbn [delete snd]. rewrite lookup_delete.
    case_decide; [done|]. apply Hk.
  - intros k r. unfold clear. by rewrite lookup_empty.
  - intros t r. apply Hk.
Qed.

Lemma keyed_preserved_witness :
  Ranking.keyed (upsert Sample.t1 Sample.apple "Apple" (∅ : Table)).
Proof.
  destruct (keyed_preserved Sample.t1 (∅ : Table)) as [H _].
  - intros k r Hk. by rewrite lookup_empty in Hk.
  - apply H.
Defined.

End StoreAlgebra.

Section RankingQuery.

Import Database Ranking.

Lemma by_yield_desc_total : Total by_yield_desc.
Proof.
  intros a b. unfold by_yield_desc. rewrite !leb_le.
  destruct (Qclt_le_dec (yield_key a) (yield_key b)) as [H|H]; [|by left].
  right. by apply Qclt_le_weak.
Qed.

Local Existing Instance by_yield_desc_total.

Lemma by_yield_desc_trans : Transitive by_yield_desc.
Proof.
  intros a b c. unfold by_yield_desc. rewrite !leb_le. intros H1 H2.
  by apply (Qcle_trans _ (yield_key b)).
Qed.

Local Existing Instance by_yield_desc_trans.

Lemma StronglySorted_weaken {A} (R R' : relation A) (l : list A) :
  (∀ x y, R x y → R' x y) → StronglySorted R l → StronglySorted R' l.
Proof.
  intros HR. induction 1 as [|x l Hl IH Hx]; constructor; [done|].
  eapply Forall_impl; [exact Hx|]. intros y. apply HR.
Qed.

Lemma top_sorted_rows (visit : Table → list StockRecord) (db : Table) :
  let sorted :=
    merge_sort by_yield_desc
      (filter (λ r, is_Some (fcf_yield r)) (visit db)) in
  ∀ limit, ∃ rest,
    sorted = get_top_by_yield visit limit db ++ rest ∧
    length (get_top_by_yield visit limit db) =
      (if (limit <? 0)%Z then length sorted
       else Z.to_nat limit `min` length sorted).
Proof.
  intros sorted limit. unfold get_top_by_yield. fold sorted.
  destruct (limit <? 0)%Z.
  - exists []. by rewrite app_nil_r.
  - exists (drop (Z.to_nat limit) sorted). rewrite take_drop.
    split; [done|]. by rewrite length_take.
Qed.

(** X11. [get_top_by_yield] returns stored rows that have a yield, in
    descending order of yield; it returns all of them when the limit is
    negative or at least their number, and otherwise as many as the limit
    says, none of which has a lower yield than a row left out. *)
Theorem top_by_yield_rule (visit : Table → list StockRecord) (limit : Z)
    (db : Table) :
  visits_rows visit →
  let top := get_top_by_yield visit limit db in
  let ranked := filter (λ r, is_Some (fcf_yield r)) ((map_to_list db).*2) in
  (∀ r, r ∈ top → (∃ k, db !! k = Some r) ∧ is_Some (fcf_yield r)) ∧
  StronglySorted (λ a b, yield_key b ≤ yield_key a) top ∧
  length top =
    (if (limit <? 0)%Z then length ranked
     else Z.to_nat limit `min` length ranked) ∧
  (∀ r, r ∈ ranked → r ∉ top →
        ∀ r', r' ∈ top → yield_key r ≤ yield_key r').
Proof.
  intros Hvisit top ranked.
  set (sorted := merge_sort by_yield_desc
                   (filter (λ r, is_Some (fcf_yield r)) (visit db))).
  assert (sorted ≡ₚ ranked) as Hperm.
  { unfold sorted, ranked. rewrite merge_sort_Permutation.
    by rewrite (Hvisit db). }
  assert (StronglySorted by_yield_desc sorted) as Hsorted
    by (apply StronglySorted_merge_sort; apply _).
  destruct (top_sorted_rows visit db limit) as (rest & Hsplit & Hlen).
  fold sorted top in Hsplit, Hlen.
  split; [|split; [|split]].
  - intros r Hr.
    assert (r ∈ ranked) as Hin
      by (rewrite <- Hperm, Hsplit; apply elem_of_app; by left).
    apply list_elem_of_filter in Hin as [Hy Hin]. split; [|done].
    apply list_elem_of_fmap in Hin as ([k r'] & -> & Hin).
    exists k. by apply elem_of_map_to_list.
  - rewrite Hsplit in Hsorted. apply StronglySorted_app_1_l in Hsorted.
    eapply StronglySorted_weaken; [|exact Hsorted].
    intros x y. apply leb_le.
  - assert (length sorted = length ranked) as <- by (by rewrite Hperm).
    exact Hlen.
  - intros r Hr Hnot r' Hr'. rewrite <- Hperm, Hsplit in Hr.
    apply elem_of_app in Hr as [Hr|Hr]; [done|].
    rewrite Hsplit in Hsorted.
    apply leb_le.
    apply (StronglySorted_app_1_elem_of _ _ _ _ _ Hsorted Hr' Hr).
Qed.

Lemma top_by_yield_rule_witness :
  length (get_top_by_yield get_all 3 Examples.five_rows) = 3%nat ∧
  length (get_top_by_yield get_all (-1) Examples.five_rows) = 4%nat.
Proof.
  assert (visits_rows get_all) as Hv
    by (intros db; apply merge_sort_Permutation).
  destruct (top_by_yield_rule get_all 3 Examples.five_rows Hv)
    as (_ & _ & -> & _).
  destruct (top_by_yield_rule get_all (-1) Examples.five_rows Hv)
    as (_ & _ & -> & _).
  split; reflexivity.
Defined.

Example top_three_of_five :
  ticker <$> get_top_by_yield get_all 3 Examples.five_rows =
    ["E"; "C"; "A"]%string.
Proof. vm_compute. reflexivity. Qed.

End RankingQuery.

(** ** The resolver, further *)

Section ResolverFurther.

Import TickerResolver ResolverQueries.





Lemma search_loop_take (q : string) (limit : Z) (cs results : list Company) :
  (Z.of_nat (length results) < Z.max 1 limit)%Z →
  search_loop q limit results cs =
    take (Z.to_nat (Z.max 1 limit))
      (results ++ filter (λ c, matches q c) cs).
Proof.
  revert results. induction cs as [|c cs IH]; intros results Hlen.
  - rewrite filter_nil, app_nil_r, take_ge; [done|lia].
  - cbn [search_loop]. rewrite filter_cons.
    destruct (matches q c) eqn:Em.
    + rewrite decide_True by done.
      set (F := filter (λ c : Company, matches q c) cs).
      assert (results ++ c :: F = (results ++ [c]) ++ F) as ->
        by (by rewrite <- app_assoc).
      assert (length (results ++ [c]) = S (length results)) as Hl
        by (rewrite length_app; cbn [length]; lia).
      destruct (Z.leb_spec limit (Z.of_nat (length (results ++ [c]))))
        as [Hle|Hgt].
      * rewrite take_app_length'; [done|]. lia.
      * apply IH. lia.
    + rewrite decide_False by (intros H; exact H). by apply IH.
Qed.

(** X13. [search] returns the first companies, in load order, whose ticker or
    title in lower case has the query in lower case as a substring: as many
    as the limit says, and one when the limit is zero or negative. *)
Theorem search_rule (self : Loaded) (query : string) (limit : Z) :
  search self query limit =
    take (Z.to_nat (Z.max 1 limit))
      (filter (λ c, matches (Str.lower query) c) (companies self)) ∧
  (∀ c, c ∈ search self query limit →
        c ∈ companies self ∧
        (Str.substring (Str.lower query) (Str.lower (ticker c)) ∨
         Str.substring (Str.lower query) (Str.lower (title c)))) ∧
  (length (search self query limit) ≤ Z.to_nat (Z.max 1 limit))%nat.
Proof.
  assert (search self query limit =
            take (Z.to_nat (Z.max 1 limit))
              (filter (λ c, matches (Str.lower query) c) (companies self)))
    as Hs.
  { unfold search. rewrite search_loop_take by (cbn; lia). done. }
  split; [done|]. rewrite Hs. split.
  - intros c Hc. apply subseteq_take in Hc.
    apply list_elem_of_filter in Hc as [Hm Hc]. split; [done|].
    unfold matches in Hm. apply Is_true_true, orb_true_iff in Hm.
    by rewrite <- !contains_spec.
  - rewrite length_take. lia.
Qed.

Example search_apple :
  ticker <$> search (_load_data Sample.directory) "APPLE" 10 =
    ["AAPL"; "APLE"]%string.
Proof. vm_compute. reflexivity. Qed.

Example search_limit_zero :
  ticker <$> search (_load_data Sample.directory) "apple" 0 =
    ["AAPL"]%string.
Proof. vm_compute. reflexivity. Qed.


Lemma contains_empty (s : string) : Str.contains EmptyString s = true.
Proof. by destruct s. Qed.

(** X15. on an input that is empty or all white space, [resolve] returns the
    ticker of the first company of the directory, unless a company has the
    empty ticker; with the empty directory it returns the empty string. *)
Theorem resolve_blank_input (file : option (list Entry))
    (user_input : string) :
  Str.strip user_input = EmptyString →
  (∀ c, c ∈ companies (_load_data file) → ticker c ≠ EmptyString) →
  resolve (_load_data file) user_input =
    match companies (_load_data file) with
    | c :: _ => ticker c
    | [] => EmptyString
    end.
Proof.
  intros Hs Hne. unfold resolve. rewrite Hs.
  cbn [Str.upper Str.lower Str.map]. rewrite loaded_companies.
  assert (filter (same_ticker EmptyString) (companies (_load_data file)) = [])
    as ->.
  { destruct (filter _ _) as [|c l] eqn:E; [done|]. exfalso.
    assert (c ∈ filter (same_ticker EmptyString)
                  (companies (_load_data file))) as Hc by (rewrite E; left).
    apply list_elem_of_filter in Hc as [Hc Hin]. apply (Hne c Hin).
    unfold same_ticker in Hc. by destruct (ticker c). }
  cbn [last]. destruct (companies (_load_data file)) as [|c cs]; [done|].
  cbn [first_by_title]. by rewrite contains_empty.
Qed.

Lemma resolve_blank_input_witness :
  resolve (_load_data Sample.directory) "   " = "MSFT"%string.
Proof.
  apply (resolve_blank_input Sample.directory "   "); [reflexivity|].
  intros c Hc. apply list_elem_of_In in Hc. simpl in Hc.
  destruct Hc as [<-|[<-|[<-|[]]]]; discriminate.
Defined.

End ResolverFurther.

(** ** The refresh jobs, further *)

Section JobsFurther.

Import Database App Ranking.

Variable yf : string → Stock.Provider.
Variable fault : Write → bool.
Variable clock : Write → string.

Lemma fcf_written_same_inputs now y v (a b : StockRecord) :
  same_inputs a b → fcf_written now y v a = fcf_written now y v b.
Proof.
  intros (H1 & H2 & H3 & H4 & H5 & H6 & H7 & H8).
  unfold fcf_written, set_fcf. by rewrite H1, H2, H3, H4, H5, H6, H7, H8.
Qed.

Lemma fcf_written_again now y v (r : StockRecord) :
  y ∈ years → fcf_of y r = v → same_inputs (fcf_written now y v r) r.
Proof.
  intros Hy Hv. apply year_cases in Hy.
  destruct Hy as [->|[->|[->|[->| ->]]]]; cbn in Hv; subst v;
    repeat split.
Qed.

Lemma fcf_written_twice now y v (r : StockRecord) :
  y ∈ years →
  fcf_written now y v (fcf_written now y v r) = fcf_written now y v r.
Proof.
  intros Hy. apply year_cases in Hy.
  by destruct Hy as [->|[->|[->|[->| ->]]]].
Qed.

Lemma row_years_other_year t fcf (ys : list Z) (row : StockRecord) (y : Z) :
  y ∉ ys → fcf_of y (row_years fault clock t fcf ys row) = fcf_of y row.
Proof.
  revert row. induction ys as [|y0 ys IH]; intros row Hy; [done|].
  apply not_elem_of_cons in Hy as [Hne Hy]. cbn [row_years].
  destruct (Stock.getattr fcf y0); [|by apply IH].
  destruct (fault _); [done|]. rewrite IH by done.
  by apply fcf_written_other.
Qed.

Lemma row_years_same_inputs t fcf (ys : list Z) (a b : StockRecord) :
  same_inputs a b →
  row_years fault clock t fcf ys a = row_years fault clock t fcf ys b ∨
  (∀ x, row_years fault clock t fcf ys x = x).
Proof.
  intros Hab. induction ys as [|y ys IH]; [by right|]. cbn [row_years].
  destruct (Stock.getattr fcf y) as [v|]; [|exact IH].
  destruct (fault _); [by right|]. left.
  by rewrite (fcf_written_same_inputs _ _ _ a b).
Qed.

Lemma row_years_idemp t fcf (ys : list Z) (row : StockRecord) :
  Forall (λ y, y ∈ years) ys → NoDup ys →
  row_years fault clock t fcf ys (row_years fault clock t fcf ys row) =
    row_years fault clock t fcf ys row.
Proof.
  intros Hys. revert row.
  induction Hys as [|y ys Hy Hys IH]; intros row Hnd; [done|].
  apply NoDup_cons in Hnd as [Hnew Hnd]. cbn [row_years].
  destruct (Stock.getattr fcf y) as [v|] eqn:Hv; [|by apply IH].
  destruct (fault (WriteFCF t y)) eqn:Hf; [done|].
  set (now := clock (WriteFCF t y)).
  set (r1 := row_years fault clock t fcf ys (fcf_written now y (Some v) row)).
  assert (same_inputs (fcf_written now y (Some v) r1) r1) as Hsame.
  { apply fcf_written_again; [done|]. unfold r1.
    rewrite row_years_other_year by done. by apply fcf_written_year. }
  destruct (row_years_same_inputs t fcf ys _ _ Hsame) as [->|Hid].
  - by apply IH.
  - rewrite Hid. unfold r1. rewrite Hid. by apply fcf_written_twice.
Qed.

Lemma ev_row_frame (r : StockRecord) :
  ticker (ev_row yf fault clock r) = ticker r ∧
  company_name (ev_row yf fault clock r) = company_name r ∧
  average_fcf (ev_row yf fault clock r) = average_fcf r ∧
  ∀ y, fcf_of y (ev_row yf fault clock r) = fcf_of y r.
Proof. unfold ev_row. by destruct (ev_written yf fault r). Qed.

Lemma ev_row_idemp (r : StockRecord) :
  ev_row yf fault clock (ev_row yf fault clock r) = ev_row yf fault clock r.
Proof.
  unfold ev_row at 1. unfold ev_written, new_ev, provider_of.
  destruct (ev_row_frame r) as (-> & _ & Havg & _). rewrite Havg.
  fold (provider_of yf r). fold (new_ev yf r). fold (ev_written yf fault r).
  unfold ev_row. by destruct (ev_written yf fault r).
Qed.

Lemma fcf_row_frame (r : StockRecord) :
  enterprise_value (fcf_row yf fault clock r) = enterprise_value r ∧
  ticker (fcf_row yf fault clock r) = ticker r ∧
  company_name (fcf_row yf fault clock r) = company_name r.
Proof. apply row_years_frame. Qed.

Lemma fcf_row_idemp (r : StockRecord) :
  fcf_row yf fault clock (fcf_row yf fault clock r) =
    fcf_row yf fault clock r.
Proof.
  unfold fcf_row at 1. unfold new_fcf, provider_of.
  destruct (fcf_row_frame r) as (_ & -> & _).
  apply row_years_idemp; [apply job_years|].
  apply (bool_decide_unpack _). reflexivity.
Qed.

Lemma canonical_fmap (f : StockRecord → StockRecord) (d : Table) :
  (∀ r, ticker (f r) = ticker r) → canonical d → canonical (f <$> d).
Proof.
  intros Hf Hd k r. rewrite lookup_fmap.
  destruct (d !! k) as [r0|] eqn:E; [|done]. intros [= <-].
  rewrite Hf. by apply Hd.
Qed.

Lemma ev_job_table (d : Table) :
  canonical d →
  db (refresh_enterprise_values yf fault clock d) =
    ev_row yf fault clock <$> d.
Proof.
  intros Hc. apply (loop_table (ev_step yf fault clock)); [|done].
  apply ev_step_db.
Qed.

Lemma fcf_job_table (d : Table) :
  canonical d →
  db (refresh_fcf_values yf fault clock d) = fcf_row yf fault clock <$> d.
Proof.
  intros Hc. apply (loop_table (fcf_step yf fault clock)); [|done].
  apply fcf_step_db.
Qed.

(** X16. each refresh job is idempotent: run again on the table it has left,
    with the same answers of the provider, the same storage faults and the
    same clock readings, it leaves that table as it is. *)
Theorem refresh_idempotent (d : Table) :
  canonical d →
  db (refresh_enterprise_values yf fault clock
        (db (refresh_enterprise_values yf fault clock d))) =
    db (refresh_enterprise_values yf fault clock d) ∧
  db (refresh_fcf_values yf fault clock
        (db (refresh_fcf_values yf fault clock d))) =
    db (refresh_fcf_values yf fault clock d).
Proof.
  intros Hc. split.
  - rewrite (ev_job_table d Hc).
    rewrite ev_job_table
      by (apply canonical_fmap; [intros r; apply ev_row_frame|done]).
    rewrite <- map_fmap_compose. apply map_fmap_ext.
    intros k r _. apply ev_row_idemp.
  - rewrite (fcf_job_table d Hc).
    rewrite fcf_job_table
      by (apply canonical_fmap; [intros r; apply fcf_row_frame|done]).
    rewrite <- map_fmap_compose. apply map_fmap_ext.
    intros k r _. apply fcf_row_idemp.
Qed.




Lemma disjoint_filters {A} (P Q : A → bool) (l : list A) :
  (∀ x, P x = true → Q x = false) →
  (length (filter P l) + length (filter Q l) ≤ length l)%nat.
Proof.
  intros HPQ. induction l as [|x l IH]; [done|]. rewrite !filter_cons.
  pose proof (HPQ x) as Hx.
  destruct (P x) eqn:EP, (Q x) eqn:EQ; repeat case_decide; try done;
    cbn [length]; try lia.
Qed.

Lemma complement_filters {A} (P : A → bool) (l : list A) :
  (length (filter (λ x, negb (P x)) l) + length (filter P l) = length l)%nat.
Proof.
  induction l as [|x l IH]; [done|]. rewrite !filter_cons.
  destruct (P x) eqn:EP; repeat case_decide; try done; cbn [length]; lia.
Qed.

(** X18. the enterprise-value job reports at most as many successes and errors
    together as there are rows, and no more errors than storage faults; the
    free-cash-flow job reports exactly one success or error per row. *)
Theorem refresh_tally_bounds (d : Table) :
  let ev := refresh_enterprise_values yf fault clock d in
  let fcf := refresh_fcf_values yf fault clock d in
  (success ev + errors ev ≤ count d)%nat ∧
  (success fcf + errors fcf = count d)%nat ∧
  ((∀ w, fault w = false) → errors ev = 0%nat ∧ errors fcf = 0%nat ∧
                            success fcf = count d).
Proof.
  intros ev fcf.
  destruct (ev_loop_tally yf fault clock (get_all d)
              {| db := d; success := 0; errors := 0 |}) as [H1 H2].
  destruct (fcf_loop_tally yf fault clock (get_all d)
              {| db := d; success := 0; errors := 0 |}) as [H3 H4].
  subst ev fcf. unfold refresh_enterprise_values, refresh_fcf_values.
  cbn [success errors] in *.
  rewrite H1, H2, H3, H4, <- get_all_length. cbn [Nat.add]. split; [|split].
  - apply disjoint_filters. intros r. unfold ev_written, ev_failed.
    destruct (bool_decide _), (fault _); done.
  - apply complement_filters.
  - intros Hnf.
    assert (∀ l, filter (ev_failed yf fault) l = []) as ->.
    { intros l. induction l as [|r l IH]; [done|]. rewrite filter_cons, IH.
      unfold ev_failed. rewrite Hnf, andb_false_r. by case_decide. }
    assert (∀ l, filter (fcf_failed yf fault) l = []) as Hnone.
    { intros l. induction l as [|r l IH]; [done|]. rewrite filter_cons, IH.
      assert (fcf_failed yf fault r = false) as ->; [|by case_decide].
      unfold fcf_failed, year_fails. cbn [existsb].
      by rewrite !Hnf, !andb_false_r. }
    rewrite Hnone. split; [done|]. split; [done|].
    pose proof (complement_filters (fcf_failed yf fault) (get_all d)) as Hc.
    rewrite Hnone in Hc. cbn [length] in Hc. lia.
Qed.

End JobsFurther.

Lemma sample_ten_rows_canonical : App.canonical Sample.ten_rows.
Proof.
  unfold Sample.ten_rows. cbn [foldr Sample.tickers].
  repeat (apply canonical_upsert; [reflexivity|]). apply canonical_empty.
Qed.

Lemma refresh_idempotent_witness :
  App.db (App.refresh_fcf_values Sample.yf_one_down Sample.fault_T5
            Sample.clock
            (App.db (App.refresh_fcf_values Sample.yf_one_down
                       Sample.fault_T5 Sample.clock Sample.ten_rows))) =
    App.db (App.refresh_fcf_values Sample.yf_one_down Sample.fault_T5
              Sample.clock Sample.ten_rows).
Proof.
  apply (refresh_idempotent Sample.yf_one_down Sample.fault_T5 Sample.clock
           Sample.ten_rows).
  apply sample_ten_rows_canonical.
Defined.


(** ** Ingestion and lookup *)

Section IngestionRuns.

Import Database TickerResolver Ingestion.

Variable yf : string → Stock.Provider.
Variable fault : nat → bool.
Variable clock : nat → string.

(** The key a company is stored under. *)
Local Abbreviation key c := (Stock.stock_ticker (ticker c)).

Lemma fetch_ticker (t : string) :
  data_ticker (fetch yf t) = Stock.stock_ticker t.
Proof. reflexivity. Qed.

Lemma run_loop_tally (i : nat) (cs : list Company) (b : Run) :
  (success_count (run_loop yf fault clock i cs b) +
   error_count (run_loop yf fault clock i cs b) =
   success_count b + error_count b + length cs)%nat ∧
  ((∀ j, fault j = false) →
   error_count (run_loop yf fault clock i cs b) = error_count b).
Proof.
  revert i b. induction cs as [|c cs IH]; intros i b; cbn [run_loop length].
  - split; [lia|done].
  - destruct (IH (S i) (run_step yf fault clock i c b)) as [H1 H2].
    split.
    + rewrite H1. unfold run_step. destruct (fault i); cbn; lia.
    + intros Hnf. rewrite (H2 Hnf). unfold run_step. by rewrite Hnf.
Qed.



Lemma run_loop_other (i : nat) (cs : list Company) (b : Run) (k : string) :
  (∀ c, c ∈ cs → key c ≠ k) →
  db (run_loop yf fault clock i cs b) !! k = db b !! k.
Proof.
  revert i b. induction cs as [|c cs IH]; intros i b Hk; [done|].
  cbn [run_loop]. rewrite IH by (intros x Hx; apply Hk; by right).
  unfold run_step. destruct (fault i); [done|]. cbn [db]. unfold upsert.
  rewrite lookup_insert_ne; [done|]. rewrite fetch_ticker. apply Hk. by left.
Qed.

(** The row a company leaves when its upsert goes through. *)
Lemma run_step_row (i : nat) (c : Company) (b : Run) :
  fault i = false →
  ∃ r, db (run_step yf fault clock i c b) !! key c = Some r ∧
       Database.ticker r = key c ∧
       company_name r = title c ∧
       enterprise_value r = Stock.get_enterprise_value (yf (key c)) ∧
       average_fcf r =
         Stock.calculate_average (Stock.get_free_cash_flow (yf (key c))) ∧
       derived_ok r.
Proof.
  intros Hf. unfold run_step. rewrite Hf. cbn [db]. unfold upsert.
  rewrite fetch_ticker, lookup_insert_eq. eexists. split; [done|].
  repeat split.
Qed.

Lemma run_loop_rows (i : nat) (cs : list Company) (b : Run) :
  (∀ j, fault j = false) →
  ∀ c, c ∈ cs →
    ∃ pre c' post r,
      cs = pre ++ c' :: post ∧ key c' = key c ∧
      (∀ x, x ∈ post → key x ≠ key c) ∧
      db (run_loop yf fault clock i cs b) !! key c = Some r ∧
      Database.ticker r = key c ∧
      company_name r = title c' ∧
      enterprise_value r = Stock.get_enterprise_value (yf (key c)) ∧
      average_fcf r =
        Stock.calculate_average (Stock.get_free_cash_flow (yf (key c))) ∧
      derived_ok r.
Proof.
  intros Hnf. revert i b. induction cs as [|c0 cs IH]; intros i b c Hc.
  { by apply elem_of_nil in Hc. }
  cbn [run_loop].
  destruct (decide (key c ∈ (λ x, key x) <$> cs)) as [Hin|Hout].
  - apply list_elem_of_fmap in Hin as (x & Hkx & Hx).
    destruct (IH (S i) (run_step yf fault clock i c0 b) x Hx)
      as (pre & c' & post & r & -> & Hk' & Hpost & Hr & Hrest).
    exists (c0 :: pre), c', post, r. rewrite Hkx.
    split; [done|]. split; [congruence|]. split; [done|]. done.
  - assert (c = c0) as ->.
    { apply elem_of_cons in Hc as [->|Hc]; [done|]. exfalso. apply Hout.
      by apply (list_elem_of_fmap_2 (λ x, key x)). }
    destruct (run_step_row i c0 b (Hnf i)) as (r & Hr & Hrest).
    exists [], c0, cs, r. split; [done|]. split; [done|]. split.
    { intros x Hx Heq. apply Hout. rewrite <- Heq.
      by apply (list_elem_of_fmap_2 (λ x, key x)). }
    split; [|done]. rewrite run_loop_other; [done|].
    intros x Hx Heq. apply Hout. rewrite <- Heq.
    by apply (list_elem_of_fmap_2 (λ x, key x)).
Qed.

(** X19. [run] reports one success or one error for each company it selects;
    it selects every company when the limit is [None] or 0, the first ones
    when the limit is positive, all but the last ones when it is negative;
    without storage faults it reports no error. *)
Theorem run_report (resolver : Loaded) (limit : option Z) (d : Table) :
  let r := run yf fault clock resolver limit d in
  let total := length (companies resolver) in
  (success_count r + error_count r =
   length (selected (companies resolver) limit))%nat ∧
  (limit = None ∨ limit = Some 0%Z →
   (success_count r + error_count r = total)%nat) ∧
  (∀ n, limit = Some n → (0 < n)%Z →
        (success_count r + error_count r = Z.to_nat n `min` total)%nat) ∧
  (∀ n, limit = Some n → (n < 0)%Z →
        (success_count r + error_count r = total - Z.to_nat (- n))%nat) ∧
  ((∀ j, fault j = false) → error_count r = 0%nat).
Proof.
  intros r total. unfold r, run.
  destruct (run_loop_tally 1 (selected (companies resolver) limit)
              {| db := d; success_count := 0; error_count := 0 |})
    as [Hsum Herr].
  cbn [success_count error_count Nat.add] in Hsum, Herr.
  split; [exact Hsum|]. rewrite Hsum. split; [|split; [|split]].
  - by intros [->| ->].
  - intros n -> Hn. cbn [selected].
    destruct (Z.eqb_spec n 0) as [->|_]; [lia|].
    destruct (Z.ltb_spec 0 n); [|lia]. apply length_take.
  - intros n -> Hn. cbn [selected].
    destruct (Z.eqb_spec n 0) as [->|_]; [lia|].
    destruct (Z.ltb_spec 0 n); [lia|]. rewrite length_take. unfold total. lia.
  - exact Herr.
Qed.



(** X22. after a full [run] without storage faults over a directory whose
    tickers have no white space around them, [lookup] of the ticker of any
    company of the directory, typed in any case and with any white space
    around it, finds a row of that ticker. *)
Theorem run_then_lookup (file : option (list Entry)) (d : Table)
    (c : Company) (user_input : string) :
  (∀ j, fault j = false) →
  (∀ x, x ∈ companies (_load_data file) → Str.strip (ticker x) = ticker x) →
  c ∈ companies (_load_data file) →
  Str.upper (Str.strip user_input) = Str.upper (ticker c) →
  ∃ r, lookup (_load_data file) user_input
         (db (run yf fault clock (_load_data file) None d)) = Some r ∧
       Database.ticker r = Str.upper (ticker c) ∧
       derived_ok r.
Proof.
  intros Hnf Hstrip Hc Hinput. set (self := _load_data file).
  assert (∀ x, x ∈ companies self → key x = Str.upper (ticker x)) as Hkey.
  { intros x Hx. unfold Stock.stock_ticker.
    by rewrite strip_upper, (Hstrip x Hx). }
  unfold lookup, resolve. rewrite Hinput.
  pose proof (loaded_companies file (Str.upper (ticker c))) as Hmap.
  fold self in Hmap. rewrite Hmap.
  destruct (last _) as [c'|] eqn:El; last first.
  { apply last_None in El.
    apply (filter_nil_not_elem_of _ _ c) in El; done. }
  apply last_Some_elem_of, list_elem_of_filter in El as [Hc' Hin'].
  unfold same_ticker in Hc'. unfold get. rewrite Hc'.
  destruct (run_loop_rows 1 (companies self)
              {| db := d; success_count := 0; error_count := 0 |} Hnf c Hc)
    as (_ & _ & _ & r & _ & _ & _ & Hr & Ht & _ & _ & _ & Hok).
  rewrite (Hkey c Hc) in Hr, Ht. by exists r.
Qed.

(** X23. [ingest_single_ticker] stores the row under the ticker in upper case
    and stripped, with the title the directory has for the ticker as typed
    (up to case) and the ticker in upper case when it has none; the row has
    the provider's enterprise value and the average [get_all_data] reports,
    and [get] of the stripped ticker reads it back. When the storage raises
    the table is as it was. *)
Theorem ingest_single_ticker_rule (resolver : Loaded) (t : string)
    (d : Table) :
  let d' := ingest_single_ticker yf fault clock resolver t d in
  (fault 1 = true → d' = d) ∧
  (fault 1 = false →
   ∃ r, get (Str.strip t) d' = Some r ∧
        Database.ticker r = Stock.stock_ticker t ∧
        company_name r =
          match get_company resolver t with
          | Some company => title company
          | None => Str.upper t
          end ∧
        enterprise_value r =
          Stock.get_enterprise_value (yf (Stock.stock_ticker t)) ∧
        average_fcf r =
          Stock.calculate_average
            (Stock.get_free_cash_flow (yf (Stock.stock_ticker t))) ∧
        derived_ok r).
Proof.
  intros d'. unfold d', ingest_single_ticker. split; intros Hf; rewrite Hf;
    [done|].
  unfold get, upsert. rewrite fetch_ticker.
  assert (Str.upper (Str.strip t) = Stock.stock_ticker t) as ->
    by (unfold Stock.stock_ticker; by rewrite strip_upper).
  rewrite lookup_insert_eq. eexists. split; [done|]. repeat split.
Qed.

End IngestionRuns.



Lemma run_then_lookup_witness :
  ∃ r, Ingestion.lookup (TickerResolver._load_data Sample.directory) " aapl "
         (Ingestion.db
            (Ingestion.run Examples.yf_up Examples.no_fault_at
               Examples.clock_at (TickerResolver._load_data Sample.directory)
               None ∅)) = Some r ∧
       Database.ticker r = "AAPL"%string ∧
       Database.derived_ok r.
Proof.
  apply (run_then_lookup Examples.yf_up Examples.no_fault_at
           Examples.clock_at Sample.directory ∅
           (TickerResolver.company_of
              (Sample.entry "AAPL" "Apple Inc." 320193)) " aapl ").
  - reflexivity.
  - intros x Hx. apply list_elem_of_In in Hx. cbn in Hx.
    destruct Hx as [<-|[<-|[<-|[]]]]; reflexivity.
  - apply list_elem_of_In. vm_compute. right. left. reflexivity.
  - reflexivity.
Defined.

(** ** The provider adapter, further *)

Section AdapterFurther.

Import Stock StockFacts.

Lemma nonempty_frame (q : DataFrame) :
  "Free Cash Flow"%string ∈ index q → columns q ≠ [] → empty q = false.
Proof.
  intros Hi Hc. unfold empty.
  rewrite !bool_decide_eq_false_2; [done|done|].
  intros E. rewrite E in Hi. by apply elem_of_nil in Hi.
Qed.

(** X24. [_calculate_ttm_fcf] gives a value exactly when the quarterly
    statement is fetched, has the row "Free Cash Flow" and holds a valid
    figure in each of its first four columns; the value is the sum of these
    four, whatever the later columns hold. It gives [None] when the fetch
    raises. *)
Theorem ttm_rule (p : Provider) :
  (∀ s, _calculate_ttm_fcf p = Some s ↔
        ∃ q c1 c2 c3 c4 rest v1 v2 v3 v4,
          quarterly_cash_flow p = Ok q ∧
          "Free Cash Flow"%string ∈ index q ∧
          columns q = c1 :: c2 :: c3 :: c4 :: rest ∧
          valid (free_cash_flow c1) = Some v1 ∧
          valid (free_cash_flow c2) = Some v2 ∧
          valid (free_cash_flow c3) = Some v3 ∧
          valid (free_cash_flow c4) = Some v4 ∧
          s = v1 + v2 + v3 + v4) ∧
  (∀ e, quarterly_cash_flow p = Raise e → _calculate_ttm_fcf p = None).
Proof.
  split.
  - intros s. rewrite ttm_is_trailing_twelve_months.
    unfold trailing_twelve_months. split.
    + destruct (quarterly_cash_flow p) as [q|e]; [|done].
      destruct (empty q); [done|]. cbn [negb andb].
      unfold has_fcf_row. case_bool_decide as Hi; [|done].
      intros H.
      destruct (columns q) as [|c1 [|c2 [|c3 [|c4 rest]]]] eqn:Ec;
        cbn [take fmap list_fmap] in H; try discriminate H.
      * destruct (valid (free_cash_flow c1)); discriminate H.
      * destruct (valid (free_cash_flow c1)); [|discriminate H].
        destruct (valid (free_cash_flow c2)); discriminate H.
      * destruct (valid (free_cash_flow c1)); [|discriminate H].
        destruct (valid (free_cash_flow c2)); [|discriminate H].
        destruct (valid (free_cash_flow c3)); discriminate H.
      * destruct (valid (free_cash_flow c1)) as [v1|] eqn:E1;
          [|discriminate H].
        destruct (valid (free_cash_flow c2)) as [v2|] eqn:E2;
          [|discriminate H].
        destruct (valid (free_cash_flow c3)) as [v3|] eqn:E3;
          [|discriminate H].
        destruct (valid (free_cash_flow c4)) as [v4|] eqn:E4;
          [|discriminate H].
        injection H as <-.
        by exists q, c1, c2, c3, c4, rest, v1, v2, v3, v4.
    + intros (q & c1 & c2 & c3 & c4 & rest & v1 & v2 & v3 & v4 & -> & Hi
              & Hc & H1 & H2 & H3 & H4 & ->).
      rewrite nonempty_frame by (done || by rewrite Hc). cbn [negb andb].
      unfold has_fcf_row. rewrite bool_decide_eq_true_2 by done.
      rewrite Hc. cbn [take fmap list_fmap].
      by rewrite H1, H2, H3, H4.
  - intros e He. unfold _calculate_ttm_fcf. by rewrite He.
Qed.

Lemma annual_step_skip (acc : FreeCashFlowData) (col : Column) :
  counts col = false → annual_step acc col = acc.
Proof.
  unfold counts, annual_step. case_bool_decide; [|done]. cbn.
  destruct (valid (free_cash_flow col)); [|done].
  rewrite bool_decide_eq_true_2 by done. done.
Qed.

Lemma annual_loop_counts (acc : FreeCashFlowData) (cols : list Column) :
  foldl annual_step acc (filter counts cols) = foldl annual_step acc cols.
Proof.
  revert acc. induction cols as [|col cols IH]; intros acc; [done|].
  rewrite filter_cons. destruct (counts col) eqn:E.
  - rewrite decide_True by done. cbn [foldl]. apply IH.
  - rewrite decide_False by (intros H; exact H). cbn [foldl].
    by rewrite annual_step_skip.
Qed.

(** X25. in the annual statement only the columns dated 2021..2025 that hold
    a valid figure matter: [get_free_cash_flow] gives the same on the
    statement with every other column left out. A [None] or NaN cell never
    erases the figure an earlier column gave for its year. *)
Theorem annual_columns_that_count (p : Provider) (cf : DataFrame) :
  cash_flow p = Ok cf →
  get_free_cash_flow (with_annual_columns p (filter counts (columns cf))) =
    get_free_cash_flow p.
Proof.
  intros Hcf. unfold get_free_cash_flow, with_annual_columns.
  rewrite Hcf. cbn [cash_flow].
  assert ((if negb (empty {| index := index cf;
                             columns := filter counts (columns cf) |}) &&
              has_fcf_row {| index := index cf;
                             columns := filter counts (columns cf) |}
           then foldl annual_step no_data
                  (columns {| index := index cf;
                              columns := filter counts (columns cf) |})
           else no_data) =
          (if negb (empty cf) && has_fcf_row cf
           then foldl annual_step no_data (columns cf) else no_data)) as ->.
  { unfold empty, has_fcf_row. cbn [index columns].
    rewrite annual_loop_counts.
    destruct (bool_decide ("Free Cash Flow"%string ∈ index cf));
      [|by rewrite !andb_false_r].
    rewrite !andb_true_r.
    destruct (bool_decide (index cf = [])); [done|]. cbn [orb].
    case_bool_decide as E1; case_bool_decide as E2; try done; cbn [negb].
    - by rewrite <- annual_loop_counts, E1.
    - by rewrite E2 in E1. }
  unfold _calculate_ttm_fcf. cbn [quarterly_cash_flow]. done.
Qed.

Lemma annual_columns_that_count_witness :
  get_free_cash_flow
    (with_annual_columns Sample.provider_up
       (filter counts (columns Sample.annual))) =
    get_free_cash_flow Sample.provider_up.
Proof.
  apply (annual_columns_that_count Sample.provider_up Sample.annual).
  reflexivity.
Defined.

End AdapterFurther.

Section Page.

Import Database Ranking.

(** X26. the page shows at most 30 rows and at most as many as the table has,
    each of them with a yield. *)
Theorem index_rule (visit : Table → list StockRecord) (d : Table) :
  visits_rows visit →
  (length (Web.index visit d).1 ≤ 30)%nat ∧
  (length (Web.index visit d).1 ≤ (Web.index visit d).2)%nat ∧
  (∀ r, r ∈ (Web.index visit d).1 → is_Some (fcf_yield r)).
Proof.
  intros Hv. unfold Web.index. cbn [fst snd].
  destruct (top_sorted_rows visit d 30) as (rest & Hsplit & Hlen).
  change (30 <? 0)%Z with false in Hlen.
  change (Z.to_nat 30) with 30%nat in Hlen. cbv beta iota in Hlen.
  assert (length (merge_sort by_yield_desc
                    (filter (λ r, is_Some (fcf_yield r)) (visit d)))
          ≤ count d)%nat as Hle.
  { rewrite merge_sort_Permutation.
    etransitivity; [apply length_filter|].
    rewrite (Hv d), length_fmap. unfold count.
    by rewrite length_map_to_list. }
  split; [lia|]. split; [lia|].
  intros r Hr.
  assert (r ∈ filter (λ r, is_Some (fcf_yield r)) (visit d)) as Hin.
  { rewrite <- (merge_sort_Permutation by_yield_desc), Hsplit.
    apply elem_of_app. by left. }
  by apply list_elem_of_filter in Hin as [? _].
Qed.

Lemma index_rule_witness :
  (length (Web.index get_all Examples.five_rows).1 ≤ 30)%nat ∧
  (length (Web.index get_all Examples.five_rows).1 ≤
   (Web.index get_all Examples.five_rows).2)%nat.
Proof.
  destruct (index_rule get_all Examples.five_rows) as (H1 & H2 & _).
  - intros db. apply merge_sort_Permutation.
  - split; [exact H1|exact H2].
Defined.

End Page.

(** ** The formatter *)

Section Format.

Import Formatter.



Lemma this_zero : this 0 = 0%Q.
Proof. reflexivity. Qed.

Lemma this_opp (x : Qc) : (this (- x) == - this x)%Q.
Proof. apply Qred_correct. Qed.

Lemma ltb_Q (x y : Qc) : Num.ltb x y = true ↔ (this x < this y)%Q.
Proof. apply ltb_lt. Qed.

Lemma ltb_Q_false (x y : Qc) : Num.ltb x y = false ↔ (this y <= this x)%Q.
Proof.
  rewrite <- not_true_iff_false, ltb_Q. split; [apply Qnot_lt_le|].
  intros H1 H2. lra.
Qed.



Lemma this_abs (x : Qc) : (this (abs x) == Qabs (this x))%Q.
Proof.
  unfold abs. destruct (Num.ltb x 0) eqn:E.
  - apply ltb_Q in E. rewrite this_zero in E. rewrite this_opp.
    rewrite Qabs_neg; [done|]. lra.
  - apply ltb_Q_false in E. rewrite this_zero in E.
    by rewrite Qabs_pos.
Qed.

Lemma abs_opp (x : Qc) : abs (- x) = abs x.
Proof.
  apply Qc_is_canon. rewrite !this_abs, this_opp. apply Qabs_opp.
Qed.

Lemma abs_abs (x : Qc) : abs (abs x) = abs x.
Proof.
  apply Qc_is_canon. rewrite !this_abs.
  apply Qabs_pos, Qabs_nonneg.
Qed.


Lemma abs_not_negative (x : Qc) : Num.ltb (abs x) 0 = false.
Proof.
  apply ltb_Q_false. rewrite this_abs, this_zero. apply Qabs_nonneg.
Qed.

(** X27. [format_large_number] prints N/A for [None]; without
    [include_sign] it prints a number as it prints its magnitude; with it,
    it puts a minus sign before that text exactly when the number is
    negative. *)
Theorem format_sign_rule (v : Qc) :
  (∀ s, format_large_number None s = "N/A"%string) ∧
  format_large_number (Some v) false =
    format_large_number (Some (abs v)) true ∧
  format_large_number (Some (- v)) false =
    format_large_number (Some v) false ∧
  (v < 0 →
   format_large_number (Some v) true =
     ("-" +:+ format_large_number (Some v) false)%string) ∧
  (0 ≤ v →
   format_large_number (Some v) true = format_large_number (Some v) false).
Proof.
  split; [done|]. unfold format_large_number.
  rewrite abs_opp, abs_abs, abs_not_negative, !andb_false_r. cbn [andb].
  split; [done|]. split; [done|]. split.
  - intros Hv. apply ltb_lt in Hv. rewrite Hv. by rewrite andb_true_r.
  - intros Hv.
    assert (Num.ltb v 0 = false) as ->; [|done].
    apply not_true_is_false. rewrite ltb_lt. by apply Qcle_not_lt.
Qed.

Lemma format_sign_rule_witness :
  format_large_number (Some (Qc_of_Z (-1500000000))) true =
    ("-" +:+ format_large_number (Some (Qc_of_Z (-1500000000))) false)%string.
Proof.
  destruct (format_sign_rule (Qc_of_Z (-1500000000))) as (_ & _ & _ & H & _).
  apply H. reflexivity.
Defined.

Example format_examples :
  format_large_number (Some (Qc_of_Z 1500000000)) true = "$1.50B"%string ∧
  format_large_number (Some (Q2Qc (-12345 # 10))) true = "-$1,234.50"%string ∧
  format_large_number (Some (Q2Qc (12345678901 # 10000))) true =
    "$1.23M"%string ∧
  format_large_number (Some (Q2Qc (-1 # 1000))) true = "-$0.00"%string ∧
  format_large_number (Some (Q2Qc (999999999999 # 1000))) true =
    "$1000.00M"%string.
Proof. vm_compute. repeat split. Qed.








End Format.
